(** * Greenlight: the data layer and the API entry points, embedded in Rocq

    A shallow embedding of [internal/data] (the movie and permission models)
    and of [cmd/api] (start-up configuration and the movie handler).

    The PostgreSQL database is an explicit state [DB] that every model method
    receives and returns.  What the network and the server do during one call
    (how long the answer takes, whether the call fails) is an input [Env] of
    the method, so that all definitions are total functions that compute. *)

From Stdlib Require Import ZArith String List Bool Lia Floats.
From stdpp Require Import base gmap strings list.

Local Open Scope Z_scope.

(** ** Errors, contexts and the round trip to the server *)

(** The error values the embedded code can return: the sentinel of
    [internal/data/models.go], the two sentinels of the Go standard library
    that the code meets, and any other error of the driver or the server. *)
Inductive error : Type :=
| ErrRecordNotFound                (* data.ErrRecordNotFound *)
| ErrNoRows                        (* sql.ErrNoRows *)
| DeadlineExceeded                 (* context.DeadlineExceeded *)
| ErrDriver (msg : string).        (* connection, constraint, conversion ... *)

Inductive result (A : Type) : Type :=
| Ok (a : A)
| Err (e : error).
Arguments Ok {A} a.
Arguments Err {A} e.

Definition error_eqb (a b : error) : bool :=
  match a, b with
  | ErrRecordNotFound, ErrRecordNotFound => true
  | ErrNoRows, ErrNoRows => true
  | DeadlineExceeded, DeadlineExceeded => true
  | ErrDriver x, ErrDriver y => String.eqb x y
  | _, _ => false
  end.

(** [errors.Is] on unwrapped errors is identity of the error value. *)
Definition errors_Is (err target : error) : bool := error_eqb err target.

(** A [time.Duration] is a number of nanoseconds. *)
Definition Second : Z := 1000000000.

(** A [context.Context] as far as the code uses it: either no deadline
    ([context.Background()]) or a time-out counted from the call. *)
Definition Context : Type := option Z.

Definition Background : Context := None.

Definition WithTimeout (parent : Context) (timeout : Z) : Context :=
  match parent with
  | None => Some timeout
  | Some d => Some (Z.min d timeout)
  end.

(** What becomes of a call whose deadline passes before the answer is
    there.  The program text does not decide it; [database/sql] and the
    driver do, by where the time is spent: the driver has the server cancel
    the statement and returns the error it gets for that ([GaveUp]); or the
    deadline passes before the statement is sent, while the call waits for
    a connection, and the call returns [context.DeadlineExceeded]
    ([Expired]); or the statement is executed and answered all the same,
    only late ([Answered]). *)
Inductive overdue : Type :=
| GaveUp (msg : string)
| Expired
| Answered.

(** What happens outside the process during one database call that
    returns: the answer arrives after [elapsed] nanoseconds; the driver or
    the server may report a failure of its own instead of executing the
    statement; and [late] says what becomes of the call if it runs under a
    deadline and the deadline passes first.  A call that never returns has
    no [Env]. *)
Record Env : Type := {
  elapsed : Z;
  fault : option string;
  late : overdue
}.

(** The outcome of sending one statement under [ctx]: [None] when the
    statement is executed and answered.  Without a deadline, and with a
    deadline that the answer beats, only a failure of the driver or the
    server stands in the way. *)
Definition round_trip (ctx : Context) (env : Env) : option error :=
  match ctx with
  | Some timeout =>
      if timeout <=? elapsed env then
        match late env with
        | GaveUp msg => Some (ErrDriver msg)
        | Expired => Some DeadlineExceeded
        | Answered => option_map ErrDriver (fault env)
        end
      else option_map ErrDriver (fault env)
  | None => option_map ErrDriver (fault env)
  end.

(** ** The tables *)

(** A slice of strings is [nil] or holds elements; [pq.Array] stores a nil
    slice as NULL and reads NULL back as nil. *)
Definition strings : Type := option (list string).

Definition len (s : strings) : Z :=
  match s with
  | None => 0
  | Some l => Z.of_nat (length l)
  end.

(** [Movie] of [internal/data/movies.go]; [CreatedAt] is a time stamp in
    nanoseconds, [Runtime] is the integer type [data.Runtime]. *)
Record Movie : Type := {
  ID : Z;
  CreatedAt : Z;
  Title : string;
  Year : Z;
  Runtime : Z;
  Genres : strings;
  Version : Z
}.

(** A row of the [movies] table without its key [id]. *)
Record movies_row : Type := {
  created_at : Z;
  title : string;
  year : Z;
  runtime : Z;
  genres : strings;
  version : Z
}.

Record users_row : Type := { users_id : Z }.

Record permissions_row : Type := {
  permissions_id : Z;
  permissions_code : string
}.

Record users_permissions_row : Type := {
  user_id : Z;
  permission_id : Z
}.

(** The database behind [*sql.DB].  [movies] is keyed by its primary key
    [id]; the other tables are kept as the lists of their rows, in the
    order a sequential scan reads them. *)
Record DB : Type := {
  movies : gmap Z movies_row;
  users : list users_row;
  permissions : list permissions_row;
  users_permissions : list users_permissions_row
}.

Definition set_movies (t : gmap Z movies_row) (db : DB) : DB :=
  {| movies := t;
     users := users db;
     permissions := permissions db;
     users_permissions := users_permissions db |}.

Definition set_users_permissions (t : list users_permissions_row) (db : DB) : DB :=
  {| movies := movies db;
     users := users db;
     permissions := permissions db;
     users_permissions := t |}.

(** ** [database/sql] *)

(** A statement is a function of the database: it fails on the server, or
    gives the new database and the rows it returns. *)
Definition statement (A : Type) : Type := DB -> result (DB * list A).

(** [db.QueryContext(ctx, ...)]: the rows of the statement, or the error of
    the round trip or of the server; a failed statement changes nothing. *)
Definition QueryContext {A : Type} (ctx : Context) (env : Env)
    (stmt : statement A) (db : DB) : DB * result (list A) :=
  match round_trip ctx env with
  | Some e => (db, Err e)
  | None =>
      match stmt db with
      | Ok (db', rows) => (db', Ok rows)
      | Err e => (db, Err e)
      end
  end.

(** [db.QueryRow(...).Scan(...)]: the first row, [sql.ErrNoRows] when the
    statement returns none.  [QueryRow] runs under [context.Background()]. *)
Definition QueryRow_Scan {A : Type} (env : Env)
    (stmt : statement A) (db : DB) : DB * result A :=
  match QueryContext Background env stmt db with
  | (db', Ok []) => (db', Err ErrNoRows)
  | (db', Ok (row :: _)) => (db', Ok row)
  | (db', Err e) => (db', Err e)
  end.

(** [db.ExecContext(ctx, ...)] followed by [result.RowsAffected()]. *)
Definition ExecContext {A : Type} (ctx : Context) (env : Env)
    (stmt : statement A) (db : DB) : DB * result Z :=
  match QueryContext ctx env stmt db with
  | (db', Ok rows) => (db', Ok (Z.of_nat (length rows)))
  | (db', Err e) => (db', Err e)
  end.

(** [db.Exec(...)] runs under [context.Background()]. *)
Definition Exec {A : Type} (env : Env) (stmt : statement A) (db : DB)
    : DB * result Z :=
  ExecContext Background env stmt db.

(** ** [MovieModel] ([internal/data/movies.go]) *)

(** The largest value of PostgreSQL's [integer], the type of the [version]
    column read into the [int32] field [Movie.Version]; the server rejects
    an addition that passes it with "integer out of range". *)
Definition pg_integer_max : Z := 2147483647.

Definition movie_of_row (id : Z) (r : movies_row) : Movie :=
  {| ID := id;
     CreatedAt := created_at r;
     Title := title r;
     Year := year r;
     Runtime := runtime r;
     Genres := genres r;
     Version := version r |}.

Definition set_Version (v : Z) (m : Movie) : Movie :=
  {| ID := ID m;
     CreatedAt := CreatedAt m;
     Title := Title m;
     Year := Year m;
     Runtime := Runtime m;
     Genres := Genres m;
     Version := v |}.

(** [SELECT id, created_at, title, year, runtime, genres, version
     FROM movies WHERE id = $1] *)
Definition select_movie (id : Z) : statement Movie :=
  fun db =>
    match movies db !! id with
    | Some r => Ok (db, [movie_of_row id r])
    | None => Ok (db, [])
    end.

(** [UPDATE movies
     SET title = $1, year = $2, runtime = $3, genres = $4, version = version + 1
     WHERE id = $5 RETURNING version] *)
Definition update_movie (title' : string) (year' runtime' : Z)
    (genres' : strings) (id : Z) : statement Z :=
  fun db =>
    match movies db !! id with
    | Some r =>
        if pg_integer_max <? version r + 1
        then Err (ErrDriver "integer out of range")
        else
          let r' := {| created_at := created_at r;
                       title := title';
                       year := year';
                       runtime := runtime';
                       genres := genres';
                       version := version r + 1 |} in
          Ok (set_movies (<[id := r']> (movies db)) db, [version r'])
    | None => Ok (db, [])
    end.

(** [DELETE FROM movies WHERE id = $1 RETURNING id] *)
Definition delete_movie (id : Z) : statement Z :=
  fun db =>
    match movies db !! id with
    | Some _ => Ok (set_movies (delete id (movies db)) db, [id])
    | None => Ok (db, [])
    end.

(** The values the server gives to the columns an [INSERT] leaves out.  The
    migration that declares the table is not among the sources, so the new
    [id], [created_at] and [version] are taken as they come. *)
Record generated : Type := {
  gen_id : Z;
  gen_created_at : Z;
  gen_version : Z
}.

(** [INSERT INTO movies (title, year, runtime, genres)
     VALUES ($1, $2, $3, $4) RETURNING id, created_at, version]; [id] is the
    key of the table, so a value in use is refused. *)
Definition insert_movie (gen : generated) (title' : string)
    (year' runtime' : Z) (genres' : strings) : statement (Z * Z * Z) :=
  fun db =>
    match movies db !! gen_id gen with
    | Some _ =>
        Err (ErrDriver "duplicate key value violates unique constraint")
    | None =>
        let r' := {| created_at := gen_created_at gen;
                     title := title';
                     year := year';
                     runtime := runtime';
                     genres := genres';
                     version := gen_version gen |} in
        Ok (set_movies (<[gen_id gen := r']> (movies db)) db,
            [(gen_id gen, gen_created_at gen, gen_version gen)])
    end.

Module MovieModel.

(** [func (m MovieModel) Get(id int64)], returning a movie or an error. *)
Definition Get (env : Env) (db : DB) (id : Z) : result Movie :=
  if id <? 1 then Err ErrRecordNotFound
  else
    match QueryRow_Scan env (select_movie id) db with
    | (_, Err err) =>
        if errors_Is err ErrNoRows then Err ErrRecordNotFound
        else Err err
    | (_, Ok movie) => Ok movie
    end.

(** [func (m MovieModel) Update(movie)]: the database and the caller's
    struct after the call, and the error returned. *)
Definition Update (env : Env) (db : DB) (movie : Movie)
    : DB * Movie * option error :=
  match QueryRow_Scan env
          (update_movie (Title movie) (Year movie) (Runtime movie)
                        (Genres movie) (ID movie)) db with
  | (db', Ok v) => (db', set_Version v movie, None)
  | (db', Err err) => (db', movie, Some err)
  end.

(** [func (m MovieModel) Delete(id int64) error] *)
Definition Delete (env : Env) (db : DB) (id : Z) : DB * option error :=
  if id <? 1 then (db, Some ErrRecordNotFound)
  else
    match Exec env (delete_movie id) db with
    | (db', Err err) => (db', Some err)
    | (db', Ok rowsAffected) =>
        if rowsAffected =? 0 then (db', Some ErrRecordNotFound)
        else (db', None)
    end.

(** [func (m MovieModel) Insert(movie)]: the database and the caller's
    struct after the call, and the error returned. *)
Definition Insert (env : Env) (gen : generated) (db : DB) (movie : Movie)
    : DB * Movie * option error :=
  match QueryRow_Scan env
          (insert_movie gen (Title movie) (Year movie) (Runtime movie)
                        (Genres movie)) db with
  | (db', Ok (id, created, v)) =>
      (db',
       {| ID := id;
          CreatedAt := created;
          Title := Title movie;
          Year := Year movie;
          Runtime := Runtime movie;
          Genres := Genres movie;
          Version := v |},
       None)
  | (db', Err err) => (db', movie, Some err)
  end.

End MovieModel.

(** ** [Permissions] and [PermissionModel] *)

Definition Permissions : Type := list string.

(** [func (p Permissions) Include(code string) bool]: the loop over the
    indices of [p], leaving at the first equal element. *)
Fixpoint Include (p : Permissions) (code : string) : bool :=
  match p with
  | [] => false
  | p_i :: rest => if String.eqb code p_i then true else Include rest code
  end.

(** [SELECT p.code FROM users u
     INNER JOIN users_permissions up ON u.id = up.user_id
     INNER JOIN permissions p ON up.permission_id = p.id
     WHERE u.id = $1] *)
Definition select_codes (userID : Z) : statement string :=
  fun db =>
    Ok (db,
        u ← filter (fun u => users_id u = userID) (users db);
        up ← filter (fun up => user_id up = users_id u) (users_permissions db);
        p ← filter (fun p => permissions_id p = permission_id up) (permissions db);
        [permissions_code p]).

(** [code = ANY($2)] *)
Definition any_eq (code : string) (codes : list string) : bool :=
  existsb (String.eqb code) codes.

(** [INSERT INTO users_permissions
     SELECT $1, permissions.id FROM permissions
     WHERE permissions.code = ANY($2)]; the rows returned are the rows
    inserted. *)
Definition insert_users_permissions (userID : Z) (codes : list string)
    : statement users_permissions_row :=
  fun db =>
    let selected :=
      map (fun p => {| user_id := userID; permission_id := permissions_id p |})
          (filter (fun p => any_eq (permissions_code p) codes = true)
                  (permissions db)) in
    Ok (set_users_permissions (users_permissions db ++ selected) db, selected).

Module PermissionModel.

(** The loop [for rows.Next() { ... permissions = append(permissions,
    permission) }]. *)
Fixpoint scan_all (rows : list string) (permissions : Permissions)
    : Permissions :=
  match rows with
  | [] => permissions
  | permission :: rest => scan_all rest (permissions ++ [permission])
  end.

(** [func (m PermissionModel) GetAllForUser(userID int64)
     (Permissions, error)] *)
Definition GetAllForUser (env : Env) (db : DB) (userID : Z)
    : result Permissions :=
  let ctx := WithTimeout Background (3 * Second) in
  match QueryContext ctx env (select_codes userID) db with
  | (_, Err err) => Err err
  | (_, Ok rows) => Ok (scan_all rows [])
  end.

(** [func (m PermissionModel) AddForUser(userID int64, codes ...string)
     error] *)
Definition AddForUser (env : Env) (db : DB) (userID : Z)
    (codes : list string) : DB * option error :=
  let ctx := WithTimeout Background (3 * Second) in
  match ExecContext ctx env (insert_users_permissions userID codes) db with
  | (db', Err err) => (db', Some err)
  | (db', Ok _) => (db', None)
  end.

End PermissionModel.

(** ** [ValidateMovie] *)

(** [int32(x)] of an [int]: the low 32 bits, read as a signed number. *)
Definition int32 (x : Z) : Z := (x + 2147483648) mod 4294967296 - 2147483648.

Definition elems (s : strings) : list string :=
  match s with
  | None => []
  | Some l => l
  end.

Definition is_nil (s : strings) : bool :=
  match s with
  | None => true
  | Some _ => false
  end.

Section Validation.

(** [internal/validator] is not among the sources: its [Validator] type,
    the method [Check(ok, key, message)] and the helper [Unique] are taken
    as parameters. *)
Variable Validator : Type.
Variable Check : Validator -> bool -> string -> string -> Validator.
Variable Unique : list string -> bool.

(** [func ValidateMovie(v *validator.Validator, m *Movie)]: the checks in
    the order of the source; [year_now] is [time.Now().Year()]. *)
Definition ValidateMovie (year_now : Z) (v : Validator) (m : Movie)
    : Validator :=
  let v := Check v (negb (String.eqb (Title m) "")) "title" "must be provided" in
  let v := Check v (Z.of_nat (String.length (Title m)) <=? 500) "title"
                 "must not be more than 500 bytes long" in
  let v := Check v (negb (Year m =? 0)) "year" "must be provided" in
  let v := Check v (Year m >=? 1888) "year" "must be greater than 1888" in
  let v := Check v (Year m <=? int32 year_now) "year"
                 "must not be in the future" in
  let v := Check v (negb (Runtime m =? 0)) "runtime" "must be provided" in
  let v := Check v (Runtime m >? 0) "runtime" "must be a positive integer" in
  let v := Check v (negb (is_nil (Genres m))) "genres" "must be provided" in
  let v := Check v (len (Genres m) >=? 1) "genres"
                 "must contain at least 1 genre" in
  let v := Check v (len (Genres m) <=? 5) "genres"
                 "must not contain more than 5 genres" in
  Check v (Unique (elems (Genres m))) "genres"
        "must not contain duplicate values".

End Validation.

(** A validator to run [ValidateMovie] with: the errors recorded so far, by
    key; a failed check records its message unless the key has one. *)
Module validator.

Definition Validator : Type := gmap string string.

Definition New : Validator := ∅.

Definition Valid (v : Validator) : bool := bool_decide (v = ∅).

Definition AddError (v : Validator) (key message : string) : Validator :=
  match v !! key with
  | Some _ => v
  | None => <[key := message]> v
  end.

Definition Check (v : Validator) (ok : bool) (key message : string)
    : Validator :=
  if ok then v else AddError v key message.

(** Every value occurs once: no value is met again further on. *)
Fixpoint Unique (values : list string) : bool :=
  match values with
  | [] => true
  | x :: rest => negb (existsb (String.eqb x) rest) && Unique rest
  end.

End validator.

(** ** [cmd/api] *)

Module api.

(** The [Config] struct of [cmd/api/main.go]. *)
Record db_config : Type := {
  dsn : string;
  maxOpenConns : Z;
  maxIdleConns : Z;
  maxIdleTime : string
}.

Record limiter_config : Type := {
  rps : float;
  burst : Z;
  enabled : bool
}.

Record smtp_config : Type := {
  smtp_host : string;
  smtp_port : Z;
  smtp_username : string;
  smtp_password : string;
  smtp_sender : string
}.

Record cors_config : Type := { trustedOrigins : list string }.

Record Config : Type := {
  port : Z;
  env : string;
  db : db_config;
  limiter : limiter_config;
  smtp : smtp_config;
  cors : cors_config
}.

(** What [main] meets outside the program text: the [.env] file, the
    environment variables, the library calls of [openDB], and
    [app.Serve()], which is not among the sources. *)
Record World : Type := {
  dotenv_fails : bool;
  Getenv : string -> string;
  sql_Open : string -> option error;
  ParseDuration : string -> result Z;
  ping : Env;
  Serve : Config -> option error
}.

(** One flag of the command line, as [flag.Parse] meets it; the list of the
    arguments holds the flags up to the first argument that is not a flag,
    where [flag.Parse] stops.  A flag it accepts comes with its value
    parsed, in the range of its Go type (the value of
    [-cors-trusted-origins] as its [strings.Fields]).  [arg_help] is [-h]
    or [-help].  [arg_refused] is a flag it refuses: a name that is not
    defined, or a value that does not parse or lies out of the range of
    its type. *)
Inductive argument : Type :=
| arg_port (n : Z)
| arg_env (s : string)
| arg_db_dsn (s : string)
| arg_db_max_open_conns (n : Z)
| arg_db_max_idle_conns (n : Z)
| arg_db_max_idle_time (s : string)
| arg_limiter_rps (x : float)
| arg_limiter_burst (n : Z)
| arg_limiter_enabled (b : bool)
| arg_smtp_host (s : string)
| arg_smtp_port (n : Z)
| arg_smtp_username (s : string)
| arg_smtp_password (s : string)
| arg_smtp_sender (s : string)
| arg_cors_trusted_origins (fields : list string)
| arg_version (b : bool)
| arg_help
| arg_refused.

(** The variables the flags are bound to, [cfg] and [*displayVersion], and
    the status with which [flag.Parse] has ended the process, if it has. *)
Record flags : Type := {
  cfg : Config;
  displayVersion : bool;
  exited : option Z
}.

(** The default values given to [flag.IntVar], [flag.StringVar], ... *)
Definition defaults (w : World) : flags :=
  {| cfg :=
       {| port := 4000;
          env := "development";
          db := {| dsn := Getenv w "GREENLIGHT_DB_DSN";
                   maxOpenConns := 25;
                   maxIdleConns := 25;
                   maxIdleTime := "15m" |};
          limiter := {| rps := 2%float; burst := 4; enabled := true |};
          smtp := {| smtp_host := "smtp.mailtrap.io";
                     smtp_port := 2525;
                     smtp_username := Getenv w "SMTP_USERNAME";
                     smtp_password := Getenv w "SMTP_PASSWORD";
                     smtp_sender :=
                       "Greenlight <no-reply@greenlight.billhensen.net>" |};
          cors := {| trustedOrigins := [] |} |};
     displayVersion := false;
     exited := None |}.

Definition set_db (f : db_config -> db_config) (c : Config) : Config :=
  {| port := port c; env := env c; db := f (db c); limiter := limiter c;
     smtp := smtp c; cors := cors c |}.

Definition set_limiter (f : limiter_config -> limiter_config) (c : Config)
    : Config :=
  {| port := port c; env := env c; db := db c; limiter := f (limiter c);
     smtp := smtp c; cors := cors c |}.

Definition set_smtp (f : smtp_config -> smtp_config) (c : Config) : Config :=
  {| port := port c; env := env c; db := db c; limiter := limiter c;
     smtp := f (smtp c); cors := cors c |}.

(** The assignment one argument makes to the variable of its flag. *)
Definition assign (a : argument) (c : Config) : Config :=
  match a with
  | arg_port n =>
      {| port := n; env := env c; db := db c; limiter := limiter c;
         smtp := smtp c; cors := cors c |}
  | arg_env s =>
      {| port := port c; env := s; db := db c; limiter := limiter c;
         smtp := smtp c; cors := cors c |}
  | arg_db_dsn s =>
      set_db (fun d => {| dsn := s; maxOpenConns := maxOpenConns d;
                          maxIdleConns := maxIdleConns d;
                          maxIdleTime := maxIdleTime d |}) c
  | arg_db_max_open_conns n =>
      set_db (fun d => {| dsn := dsn d; maxOpenConns := n;
                          maxIdleConns := maxIdleConns d;
                          maxIdleTime := maxIdleTime d |}) c
  | arg_db_max_idle_conns n =>
      set_db (fun d => {| dsn := dsn d; maxOpenConns := maxOpenConns d;
                          maxIdleConns := n;
                          maxIdleTime := maxIdleTime d |}) c
  | arg_db_max_idle_time s =>
      set_db (fun d => {| dsn := dsn d; maxOpenConns := maxOpenConns d;
                          maxIdleConns := maxIdleConns d;
                          maxIdleTime := s |}) c
  | arg_limiter_rps x =>
      set_limiter (fun l => {| rps := x; burst := burst l;
                               enabled := enabled l |}) c
  | arg_limiter_burst n =>
      set_limiter (fun l => {| rps := rps l; burst := n;
                               enabled := enabled l |}) c
  | arg_limiter_enabled b =>
      set_limiter (fun l => {| rps := rps l; burst := burst l;
                               enabled := b |}) c
  | arg_smtp_host s =>
      set_smtp (fun m => {| smtp_host := s; smtp_port := smtp_port m;
                            smtp_username := smtp_username m;
                            smtp_password := smtp_password m;
                            smtp_sender := smtp_sender m |}) c
  | arg_smtp_port n =>
      set_smtp (fun m => {| smtp_host := smtp_host m; smtp_port := n;
                            smtp_username := smtp_username m;
                            smtp_password := smtp_password m;
                            smtp_sender := smtp_sender m |}) c
  | arg_smtp_username s =>
      set_smtp (fun m => {| smtp_host := smtp_host m;
                            smtp_port := smtp_port m;
                            smtp_username := s;
                            smtp_password := smtp_password m;
                            smtp_sender := smtp_sender m |}) c
  | arg_smtp_password s =>
      set_smtp (fun m => {| smtp_host := smtp_host m;
                            smtp_port := smtp_port m;
                            smtp_username := smtp_username m;
                            smtp_password := s;
                            smtp_sender := smtp_sender m |}) c
  | arg_smtp_sender s =>
      set_smtp (fun m => {| smtp_host := smtp_host m;
                            smtp_port := smtp_port m;
                            smtp_username := smtp_username m;
                            smtp_password := smtp_password m;
                            smtp_sender := s |}) c
  | arg_cors_trusted_origins fields =>
      {| port := port c; env := env c; db := db c; limiter := limiter c;
         smtp := smtp c; cors := {| trustedOrigins := fields |} |}
  | arg_version _ => c
  | arg_help => c
  | arg_refused => c
  end.

(** What [flag.Parse] does with one flag.  The flags are defined on
    [flag.CommandLine], which handles errors by [flag.ExitOnError]: [-h]
    ends the process with status 0 and a refused flag with status 2. *)
Definition parse_one (a : argument) (f : flags) : flags :=
  match a with
  | arg_help =>
      {| cfg := cfg f; displayVersion := displayVersion f;
         exited := Some 0 |}
  | arg_refused =>
      {| cfg := cfg f; displayVersion := displayVersion f;
         exited := Some 2 |}
  | arg_version b =>
      {| cfg := cfg f; displayVersion := b; exited := exited f |}
  | a =>
      {| cfg := assign a (cfg f); displayVersion := displayVersion f;
         exited := exited f |}
  end.

(** [flag.Parse()]: the flags assign in their order, up to the first that
    ends the process; the flags after that one are not looked at. *)
Fixpoint Parse (args : list argument) (f : flags) : flags :=
  match args with
  | [] => f
  | a :: rest =>
      match exited f with
      | Some _ => f
      | None => Parse rest (parse_one a f)
      end
  end.

(** [func openDB(cfg Config)], as the error it returns; the ping is sent
    under a context with a time-out of five seconds, and what becomes of a
    ping that takes longer is for [ping w] to say. *)
Definition openDB (w : World) (c : Config) : option error :=
  match sql_Open w (dsn (db c)) with
  | Some err => Some err
  | None =>
      match ParseDuration w (maxIdleTime (db c)) with
      | Err err => Some err
      | Ok duration =>
          round_trip (WithTimeout Background (5 * Second)) (ping w)
      end
  end.

(** How a run of [main] ends: the exit status of the process, and the
    configuration of the application [app.Serve()] was called on, if it
    was called. *)
Record run : Type := {
  served : option Config;
  exit_status : Z
}.

(** [func main()].  [internal/jsonlog] is not among the sources:
    [logger.PrintFatal] is taken to log and end the process with status 1. *)
Definition main (w : World) (args : list argument) : run :=
  if dotenv_fails w then {| served := None; exit_status := 1 |}
  else
    let f := Parse args (defaults w) in
    match exited f with
    | Some status => {| served := None; exit_status := status |}
    | None =>
        if displayVersion f then {| served := None; exit_status := 0 |}
        else
          match openDB w (cfg f) with
          | Some err => {| served := None; exit_status := 1 |}
          | None =>
              match Serve w (cfg f) with
              | Some err => {| served := Some (cfg f); exit_status := 1 |}
              | None => {| served := Some (cfg f); exit_status := 0 |}
              end
          end
    end.

(** The fields of [Application] the embedded code can reach: the
    configuration and the models over the database. *)
Record Application : Type := {
  config : Config;
  models : DB
}.

(** What [encoding/json] writes for a [Movie], by the struct tags of
    [internal/data/movies.go]: [CreatedAt] is never written, and [year],
    [runtime] and [genres] are left out when empty. *)
Record MovieJSON : Type := {
  json_id : Z;
  json_title : string;
  json_year : option Z;
  json_runtime : option Z;
  json_genres : option (list string);
  json_version : Z
}.

Definition omitempty (n : Z) : option Z :=
  if n =? 0 then None else Some n.

Definition marshal (m : Movie) : MovieJSON :=
  {| json_id := ID m;
     json_title := Title m;
     json_year := omitempty (Year m);
     json_runtime := omitempty (Runtime m);
     json_genres := match Genres m with
                    | Some (g :: gs) => Some (g :: gs)
                    | _ => None
                    end;
     json_version := Version m |}.

(** [Envelope{...}] around movies. *)
Definition Envelope : Type := gmap string Movie.

Definition StatusCreated : Z := 201.

(** The helpers of [app] a handler answers through; they are not among
    the sources, so a handler is embedded as the calls it makes to them. *)
Inductive call : Type :=
| notFoundResponse
| writeJSON (status : Z) (data : Envelope)
            (headers : option (list (string * string)))
| serverErrorResponse (err : error).

(** [func (app *Application) getMovieHandler(w, r)] of the movie
    handlers.  [readIDParam] is the pair [app.readIDParam(r)] returns,
    [now] is [time.Now()], and [written] is the error [app.writeJSON]
    returns. *)
Definition getMovieHandler (app : Application) (now : Z)
    (readIDParam : Z * option error) (written : option error)
    : list call :=
  let '(id, err) := readIDParam in
  if negb (bool_decide (err = None)) || (id <? 1) then [notFoundResponse]
  else
    let movie := {| ID := id;
                    CreatedAt := now;
                    Title := "Casablanca";
                    Year := 0;
                    Runtime := 102;
                    Genres := Some ["drama"; "romance"; "war"];
                    Version := 1 |} in
    writeJSON StatusCreated {[ "movie" := movie ]} None ::
    match written with
    | Some err => [serverErrorResponse err]
    | None => []
    end.

(** A value of an [Envelope] as the health check fills it: a string or a
    [map[string]string]. *)
Inductive any : Type :=
| any_string (s : string)
| any_map (m : gmap string string).

(** The calls of the health check to the helpers of [app]. *)
Inductive health_call : Type :=
| health_writeJSON (status : Z) (data : gmap string any)
                   (headers : option (list (string * string)))
| health_serverErrorResponse (err : error).

(** [func (app *Application) healthcheckHandler(w, r)]; [version] is the
    package variable set from [vcs.Version()], and [written] is the error
    [app.writeJSON] returns. *)
Definition healthcheckHandler (app : Application) (version : string)
    (written : option error) : list health_call :=
  let data : gmap string any :=
    <[ "status" := any_string "available" ]>
      (<[ "system_info" :=
            any_map (<[ "version" := version ]>
                       (<[ "environment" := env (config app) ]> ∅)) ]> ∅) in
  health_writeJSON StatusCreated data None ::
  match written with
  | Some err => [health_serverErrorResponse err]
  | None => []
  end.

End api.

(** ** Predicates of the statements *)

(** The codes joined to a user: those of the permissions a row of
    [users_permissions] links to the user, for a user in [users]. *)
Definition joined (db : DB) (userID : Z) (code : string) : Prop :=
  exists u up p,
    u ∈ users db /\ users_id u = userID /\
    up ∈ users_permissions db /\ user_id up = userID /\
    p ∈ permissions db /\ permissions_id p = permission_id up /\
    permissions_code p = code.

(** What C10 asks of a movie in the year [year_now]. *)
Definition movie_ok (year_now : Z) (m : Movie) : Prop :=
  Title m <> EmptyString /\
  (String.length (Title m) <= 500)%nat /\
  1888 <= Year m <= year_now /\
  0 < Runtime m /\
  exists l, Genres m = Some l /\ (1 <= length l <= 5)%nat /\ NoDup l.

(** What the handler's movie looks like on the wire. *)
Definition casablanca_json (id : Z) : api.MovieJSON :=
  {| api.json_id := id;
     api.json_title := "Casablanca";
     api.json_year := None;
     api.json_runtime := Some 102;
     api.json_genres := Some ["drama"; "romance"; "war"];
     api.json_version := 1 |}.

(** ** Sequences of calls *)

(** The calls [Update] one after the other, each on the database the one
    before left; the result lists the edits that returned no error. *)
Fixpoint Update_each (db : DB) (calls : list (Env * Movie))
    : DB * list Movie :=
  match calls with
  | [] => (db, [])
  | (env, movie) :: rest =>
      match MovieModel.Update env db movie with
      | (db', _, None) =>
          let '(db'', done) := Update_each db' rest in (db'', movie :: done)
      | (db', _, Some _) => Update_each db' rest
      end
  end.

(** The number of edits of the movie [id] in a list of edits. *)
Definition edits_of (id : Z) (done : list Movie) : Z :=
  Z.of_nat (length (filter (fun m => ID m = id) done)).

(** All the keys of the table are at least 1. *)
Definition ids_positive (db : DB) : Prop :=
  forall k, is_Some (movies db !! k) -> 1 <= k.

(** [id] is the key of [permissions]: no two rows share one. *)
Definition permissions_keyed (db : DB) : Prop :=
  forall p q,
    p ∈ permissions db -> q ∈ permissions db ->
    permissions_id p = permissions_id q -> p = q.

(** The value of the last [-env] among the arguments, the default when
    there is none. *)
Fixpoint last_env (args : list api.argument) (current : string) : string :=
  match args with
  | [] => current
  | api.arg_env s :: rest => last_env rest s
  | _ :: rest => last_env rest current
  end.

(** Whether [flag.Parse] goes on after a flag. *)
Definition accepted (a : api.argument) : bool :=
  match a with
  | api.arg_help | api.arg_refused => false
  | _ => true
  end.


(** ** Sample data *)

(** A server that answers after a millisecond. *)
Definition quiet : Env :=
  {| elapsed := 1000000; fault := None; late := Expired |}.

(** A server that answers after an hour. *)
Definition slow : Env :=
  {| elapsed := 3600 * Second; fault := None; late := Expired |}.

(** A server that cannot be reached. *)
Definition down : Env :=
  {| elapsed := 1000000; fault := Some "connection refused";
     late := Expired |}.

Definition casablanca : movies_row :=
  {| created_at := 0;
     title := "Casablanca";
     year := 1942;
     runtime := 102;
     genres := Some ["drama"; "romance"; "war"];
     version := 3 |}.

Definition sample_db : DB :=
  {| movies := {[ 1 := casablanca ]};
     users := [ {| users_id := 7 |}; {| users_id := 8 |} ];
     permissions :=
       [ {| permissions_id := 1; permissions_code := "movies:read" |};
         {| permissions_id := 2; permissions_code := "movies:write" |} ];
     users_permissions := [ {| user_id := 7; permission_id := 1 |} ] |}.

(** An edit of movie 1 made from a copy read at version 1. *)
Definition stale_edit : Movie :=
  {| ID := 1;
     CreatedAt := 0;
     Title := "Casablanca (colourised)";
     Year := 1942;
     Runtime := 102;
     Genres := Some ["drama"];
     Version := 1 |}.

(** An edit of a movie that is not stored. *)
Definition lost_edit : Movie :=
  {| ID := 2;
     CreatedAt := 0;
     Title := "The Third Man";
     Year := 1949;
     Runtime := 104;
     Genres := Some ["noir"];
     Version := 1 |}.

Definition the_third_man : Movie :=
  {| ID := 0;
     CreatedAt := 0;
     Title := "The Third Man";
     Year := 1949;
     Runtime := 104;
     Genres := Some ["noir"; "thriller"];
     Version := 0 |}.

(** A machine on which everything [main] needs is in place. *)
Definition ready : api.World :=
  {| api.dotenv_fails := false;
     api.Getenv := fun _ => EmptyString;
     api.sql_Open := fun _ => None;
     api.ParseDuration := fun _ => Ok (900 * Second);
     api.ping := quiet;
     api.Serve := fun _ => None |}.

Definition sample_app : api.Application :=
  {| api.config := api.cfg (api.defaults ready); api.models := sample_db |}.

(** ** The round trip *)

Lemma round_trip_Background env :
  round_trip Background env = option_map ErrDriver (fault env).
Proof. reflexivity. Qed.

Lemma round_trip_answered ctx env :
  fault env = None ->
  (forall timeout, ctx = Some timeout -> elapsed env < timeout) ->
  round_trip ctx env = None.
Proof.
  intros Hf Ht. destruct ctx as [timeout|]; simpl.
  - specialize (Ht timeout eq_refl).
    destruct (Z.leb_spec timeout (elapsed env)); [lia|].
    now rewrite Hf.
  - now rewrite Hf.
Qed.

Lemma round_trip_Background_in_time env :
  round_trip Background env <> Some DeadlineExceeded.
Proof.
  rewrite round_trip_Background. destruct (fault env); simpl; congruence.
Qed.

(** ** [MovieModel.Update] *)

(** The three ways [Update] ends once the statement reaches the server. *)
Lemma Update_missing env db movie :
  fault env = None ->
  movies db !! ID movie = None ->
  MovieModel.Update env db movie = (db, movie, Some ErrNoRows).
Proof.
  intros Hf Hm.
  unfold MovieModel.Update, QueryRow_Scan, QueryContext, update_movie.
  rewrite round_trip_Background, Hf. simpl. now rewrite Hm.
Qed.

Lemma Update_stored env db movie r :
  fault env = None ->
  movies db !! ID movie = Some r ->
  version r < pg_integer_max ->
  MovieModel.Update env db movie =
    (set_movies
       (<[ID movie := {| created_at := created_at r;
                         title := Title movie;
                         year := Year movie;
                         runtime := Runtime movie;
                         genres := Genres movie;
                         version := version r + 1 |}]> (movies db)) db,
     set_Version (version r + 1) movie,
     None).
Proof.
  intros Hf Hm Hv.
  unfold MovieModel.Update, QueryRow_Scan, QueryContext, update_movie.
  rewrite round_trip_Background, Hf. simpl. rewrite Hm.
  destruct (Z.ltb_spec pg_integer_max (version r + 1)); [lia|]. reflexivity.
Qed.

Lemma Update_success env db movie db' movie' :
  MovieModel.Update env db movie = (db', movie', None) ->
  exists r,
    fault env = None /\
    movies db !! ID movie = Some r /\
    version r < pg_integer_max /\
    MovieModel.Update env db movie =
      (set_movies
         (<[ID movie := {| created_at := created_at r;
                           title := Title movie;
                           year := Year movie;
                           runtime := Runtime movie;
                           genres := Genres movie;
                           version := version r + 1 |}]> (movies db)) db,
       set_Version (version r + 1) movie,
       None).
Proof.
  intros H.
  destruct (fault env) as [msg|] eqn:Hf.
  - unfold MovieModel.Update, QueryRow_Scan, QueryContext in H.
    rewrite round_trip_Background, Hf in H. simpl in H. congruence.
  - destruct (movies db !! ID movie) as [r|] eqn:Hm.
    + destruct (Z.ltb_spec pg_integer_max (version r + 1)) as [Hlt|Hge].
      * unfold MovieModel.Update, QueryRow_Scan, QueryContext, update_movie in H.
        rewrite round_trip_Background, Hf in H. simpl in H. rewrite Hm in H.
        destruct (Z.ltb_spec pg_integer_max (version r + 1)); [|lia].
        simpl in H. congruence.
      * exists r. repeat split; [lia|]. apply Update_stored; auto; lia.
    + rewrite (Update_missing env db movie Hf Hm) in H. congruence.
Qed.

(** C1, as the code has it: [Update] matches the row by id alone.  Whenever
    a record with the movie's id is stored and the statement is executed
    (no failure of the driver, the stored version below the largest
    integer), the record is overwritten with the caller's title, year,
    runtime and genres, its version becomes the stored version plus 1, and
    the call returns no error; this holds for every version the caller
    presents, equal to the stored one or not. *)
Theorem Update_overwrites_any_presented_version env db movie r :
  fault env = None ->
  movies db !! ID movie = Some r ->
  version r < pg_integer_max ->
  forall presented,
    let r' := {| created_at := created_at r;
                 title := Title movie;
                 year := Year movie;
                 runtime := Runtime movie;
                 genres := Genres movie;
                 version := version r + 1 |} in
    exists db',
      MovieModel.Update env db (set_Version presented movie) =
        (db', set_Version (version r + 1) movie, None) /\
      movies db' !! ID movie = Some r' /\
      forall id, id <> ID movie -> movies db' !! id = movies db !! id.
Proof.
  intros Hf Hm Hv presented r'.
  eexists. split; [|split].
  - rewrite (Update_stored env db (set_Version presented movie) r Hf Hm Hv).
    reflexivity.
  - simpl. apply lookup_insert_eq.
  - intros id Hid. simpl. now apply lookup_insert_ne.
Qed.

Lemma Update_overwrites_any_presented_version_witness :
  exists db',
    MovieModel.Update quiet sample_db (set_Version 1 stale_edit) =
      (db', set_Version 4 stale_edit, None) /\
    movies db' !! 1 =
      Some {| created_at := 0;
              title := "Casablanca (colourised)";
              year := 1942;
              runtime := 102;
              genres := Some ["drama"];
              version := 4 |} /\
    forall id, id <> 1 -> movies db' !! id = movies sample_db !! id.
Proof.
  apply (Update_overwrites_any_presented_version quiet sample_db stale_edit
           casablanca); [reflexivity | reflexivity | vm_compute; reflexivity].
Defined.

(** C1 fails on the code: movie 1 is stored at version 3, the edit presents
    version 1, and [Update] returns no error and replaces the record. *)
Lemma stale_version_is_overwritten :
  movies sample_db !! 1 = Some casablanca /\
  version casablanca = 3 /\
  ID stale_edit = 1 /\
  Version stale_edit = 1 /\
  snd (MovieModel.Update quiet sample_db stale_edit) = None /\
  movies (fst (fst (MovieModel.Update quiet sample_db stale_edit))) !! 1 =
    Some {| created_at := 0;
            title := "Casablanca (colourised)";
            year := 1942;
            runtime := 102;
            genres := Some ["drama"];
            version := 4 |} /\
  movies (fst (fst (MovieModel.Update quiet sample_db stale_edit))) !! 1 <>
    movies sample_db !! 1.
Proof.
  repeat split; try reflexivity.
  rewrite (Update_stored quiet sample_db stale_edit casablanca);
    [ | reflexivity | reflexivity | vm_compute; reflexivity ].
  simpl. rewrite lookup_insert_eq. discriminate.
Qed.

(** ** [MovieModel.Delete] and [MovieModel.Get] *)

Lemma Delete_missing env db id :
  1 <= id ->
  fault env = None ->
  movies db !! id = None ->
  MovieModel.Delete env db id = (db, Some ErrRecordNotFound).
Proof.
  intros Hid Hf Hm.
  unfold MovieModel.Delete, Exec, ExecContext, QueryContext, delete_movie.
  destruct (Z.ltb_spec id 1); [lia|].
  rewrite round_trip_Background, Hf. simpl. now rewrite Hm.
Qed.

Lemma Delete_stored env db id r :
  1 <= id ->
  fault env = None ->
  movies db !! id = Some r ->
  MovieModel.Delete env db id = (set_movies (delete id (movies db)) db, None).
Proof.
  intros Hid Hf Hm.
  unfold MovieModel.Delete, Exec, ExecContext, QueryContext, delete_movie.
  destruct (Z.ltb_spec id 1); [lia|].
  rewrite round_trip_Background, Hf. simpl. now rewrite Hm.
Qed.

Lemma Delete_fault env db id msg :
  1 <= id ->
  fault env = Some msg ->
  MovieModel.Delete env db id = (db, Some (ErrDriver msg)).
Proof.
  intros Hid Hf.
  unfold MovieModel.Delete, Exec, ExecContext, QueryContext.
  destruct (Z.ltb_spec id 1); [lia|].
  now rewrite round_trip_Background, Hf.
Qed.

Lemma Delete_below_one env db id :
  id < 1 -> MovieModel.Delete env db id = (db, Some ErrRecordNotFound).
Proof.
  intros Hid. unfold MovieModel.Delete.
  now destruct (Z.ltb_spec id 1); [|lia].
Qed.

Lemma Get_below_one env db id :
  id < 1 -> MovieModel.Get env db id = Err ErrRecordNotFound.
Proof.
  intros Hid. unfold MovieModel.Get.
  now destruct (Z.ltb_spec id 1); [|lia].
Qed.

Lemma Get_missing env db id :
  1 <= id ->
  fault env = None ->
  movies db !! id = None ->
  MovieModel.Get env db id = Err ErrRecordNotFound.
Proof.
  intros Hid Hf Hm.
  unfold MovieModel.Get, QueryRow_Scan, QueryContext, select_movie.
  destruct (Z.ltb_spec id 1); [lia|].
  rewrite round_trip_Background, Hf. simpl. now rewrite Hm.
Qed.

Lemma Get_stored env db id r :
  1 <= id ->
  fault env = None ->
  movies db !! id = Some r ->
  MovieModel.Get env db id = Ok (movie_of_row id r).
Proof.
  intros Hid Hf Hm.
  unfold MovieModel.Get, QueryRow_Scan, QueryContext, select_movie.
  destruct (Z.ltb_spec id 1); [lia|].
  rewrite round_trip_Background, Hf. simpl. now rewrite Hm.
Qed.

Lemma Get_fault env db id msg :
  1 <= id ->
  fault env = Some msg ->
  MovieModel.Get env db id = Err (ErrDriver msg).
Proof.
  intros Hid Hf.
  unfold MovieModel.Get, QueryRow_Scan, QueryContext.
  destruct (Z.ltb_spec id 1); [lia|].
  now rewrite round_trip_Background, Hf.
Qed.

(** C2, as the code has it: a mutation matches rows by id alone, never by
    version.  Once the statement is executed, it matches no row exactly when
    no record with that id is stored; then nothing is changed, [Delete]
    (for an id of at least 1) returns [ErrRecordNotFound] and [Update]
    returns an error.  A record stored at a version other than the
    presented one is matched and mutated: both calls return no error. *)
Theorem mutation_matches_by_id_alone env db movie :
  fault env = None ->
  1 <= ID movie ->
  (movies db !! ID movie = None ->
     MovieModel.Delete env db (ID movie) = (db, Some ErrRecordNotFound) /\
     exists err, MovieModel.Update env db movie = (db, movie, Some err)) /\
  (forall r,
     movies db !! ID movie = Some r ->
     version r <> Version movie ->
     version r < pg_integer_max ->
     snd (MovieModel.Delete env db (ID movie)) = None /\
     snd (MovieModel.Update env db movie) = None) /\
  (snd (MovieModel.Delete env db (ID movie)) = Some ErrRecordNotFound <->
     movies db !! ID movie = None).
Proof.
  intros Hf Hid. split_and!.
  - intros Hm. split; [now apply Delete_missing|].
    exists ErrNoRows. now apply Update_missing.
  - intros r Hm _ Hv. split.
    + now rewrite (Delete_stored env db (ID movie) r).
    + now rewrite (Update_stored env db movie r).
  - split.
    + intros H. destruct (movies db !! ID movie) as [r|] eqn:Hm; [|reflexivity].
      rewrite (Delete_stored env db (ID movie) r) in H by assumption.
      discriminate.
    + intros Hm. now rewrite Delete_missing.
Qed.

Lemma mutation_matches_by_id_alone_witness :
  (movies sample_db !! ID lost_edit = None ->
     MovieModel.Delete quiet sample_db (ID lost_edit) =
       (sample_db, Some ErrRecordNotFound) /\
     exists err,
       MovieModel.Update quiet sample_db lost_edit =
         (sample_db, lost_edit, Some err)) /\
  (forall r,
     movies sample_db !! ID lost_edit = Some r ->
     version r <> Version lost_edit ->
     version r < pg_integer_max ->
     snd (MovieModel.Delete quiet sample_db (ID lost_edit)) = None /\
     snd (MovieModel.Update quiet sample_db lost_edit) = None) /\
  (snd (MovieModel.Delete quiet sample_db (ID lost_edit)) =
     Some ErrRecordNotFound <->
   movies sample_db !! ID lost_edit = None).
Proof.
  apply (mutation_matches_by_id_alone quiet sample_db lost_edit);
    [reflexivity | vm_compute; discriminate].
Defined.

(** C2 fails on the code: no movie 2 is stored, and [Update] reports the
    driver's [sql.ErrNoRows], which is not [ErrRecordNotFound]; and movie 1,
    stored at version 3, is updated without an error by an edit that
    presents version 1. *)
Lemma Update_of_missing_id_is_not_NotFound :
  movies sample_db !! ID lost_edit = None /\
  MovieModel.Update quiet sample_db lost_edit =
    (sample_db, lost_edit, Some ErrNoRows) /\
  ErrNoRows <> ErrRecordNotFound /\
  errors_Is ErrNoRows ErrRecordNotFound = false /\
  movies sample_db !! ID stale_edit = Some casablanca /\
  version casablanca <> Version stale_edit /\
  snd (MovieModel.Update quiet sample_db stale_edit) = None.
Proof.
  repeat split; try reflexivity; discriminate.
Qed.

(** C3: a call of [Update] that returns no error found a record with the
    movie's id, left it stored with its version increased by exactly 1,
    wrote that same number (the previous stored version plus 1) into the
    caller's struct, and changed no other record. *)
Theorem Update_increments_version_by_one env db movie db' movie' :
  MovieModel.Update env db movie = (db', movie', None) ->
  exists r r',
    movies db !! ID movie = Some r /\
    movies db' !! ID movie = Some r' /\
    version r' = version r + 1 /\
    Version movie' = version r + 1 /\
    movie' = set_Version (version r + 1) movie /\
    forall id, id <> ID movie -> movies db' !! id = movies db !! id.
Proof.
  intros H.
  destruct (Update_success env db movie db' movie' H) as (r & Hf & Hm & Hv & E).
  rewrite E in H. injection H as <- <-.
  exists r. eexists. split; [exact Hm|]. split; [apply lookup_insert_eq|].
  repeat split. intros id Hid. simpl. now apply lookup_insert_ne.
Qed.

Lemma Update_increments_version_by_one_witness :
  exists r r',
    movies sample_db !! ID stale_edit = Some r /\
    movies (fst (fst (MovieModel.Update quiet sample_db stale_edit)))
      !! ID stale_edit = Some r' /\
    version r' = version r + 1 /\
    Version (set_Version 4 stale_edit) = version r + 1 /\
    set_Version 4 stale_edit = set_Version (version r + 1) stale_edit /\
    forall id,
      id <> ID stale_edit ->
      movies (fst (fst (MovieModel.Update quiet sample_db stale_edit))) !! id =
        movies sample_db !! id.
Proof.
  apply (Update_increments_version_by_one quiet sample_db stale_edit).
  reflexivity.
Defined.

(** ** Deadlines *)

Lemma Update_elapsed env db movie t o :
  MovieModel.Update env db movie =
  MovieModel.Update {| elapsed := t; fault := fault env; late := o |} db movie.
Proof. reflexivity. Qed.

Lemma Update_never_DeadlineExceeded env db movie :
  snd (MovieModel.Update env db movie) <> Some DeadlineExceeded.
Proof.
  unfold MovieModel.Update, QueryRow_Scan, QueryContext, update_movie.
  rewrite round_trip_Background.
  destruct (fault env); simpl; [congruence|].
  destruct (movies db !! ID movie) as [r|]; simpl; [|congruence].
  destruct (pg_integer_max <? version r + 1); simpl; congruence.
Qed.

(** C4 on the code: [Update] runs under no deadline.  It sends its
    statement through [QueryRow], which takes no context, so neither the
    time the server takes nor what a deadline would do has any influence
    on it, and it never returns the deadline error: with a server that
    answers after an hour, [Update] waits the hour and succeeds. *)
Theorem Update_runs_without_deadline :
  (forall env db movie t o,
     MovieModel.Update env db movie =
     MovieModel.Update {| elapsed := t; fault := fault env; late := o |}
                       db movie) /\
  (forall env db movie,
     snd (MovieModel.Update env db movie) <> Some DeadlineExceeded) /\
  elapsed slow = 3600 * Second /\
  snd (MovieModel.Update slow sample_db stale_edit) = None.
Proof.
  split; [exact Update_elapsed|].
  split; [exact Update_never_DeadlineExceeded|].
  split; reflexivity.
Qed.

(** C7: [Get] and [Delete] return [ErrRecordNotFound] exactly when the id
    is below 1 or the statement is executed and finds no record with the
    id; on a table whose ids are all at least 1 that is: exactly when no
    record with the id is stored, once the statement is executed.  In
    detail: with an id below 1 both return [ErrRecordNotFound] whatever
    the server would do, reachable or not, and leave the database as it
    is; with an id of at least 1, a failure of the driver is returned as
    it is, by both; [Get] turns the empty result of its query into
    [ErrRecordNotFound] and returns the stored movie otherwise; and
    [Delete] returns [ErrRecordNotFound] if and only if it ran without a
    failure of the driver and deleted no row. *)
Theorem Get_Delete_NotFound env db id :
  (MovieModel.Get env db id = Err ErrRecordNotFound <->
     id < 1 \/ (fault env = None /\ movies db !! id = None)) /\
  (snd (MovieModel.Delete env db id) = Some ErrRecordNotFound <->
     id < 1 \/ (fault env = None /\ movies db !! id = None)) /\
  (id < 1 ->
     MovieModel.Get env db id = Err ErrRecordNotFound /\
     MovieModel.Delete env db id = (db, Some ErrRecordNotFound)) /\
  (forall msg,
     1 <= id ->
     fault env = Some msg ->
     MovieModel.Get env db id = Err (ErrDriver msg) /\
     MovieModel.Delete env db id = (db, Some (ErrDriver msg))) /\
  (forall r,
     1 <= id ->
     fault env = None ->
     movies db !! id = Some r ->
     MovieModel.Get env db id = Ok (movie_of_row id r) /\
     MovieModel.Delete env db id =
       (set_movies (delete id (movies db)) db, None)) /\
  (snd (MovieModel.Delete env db id) = Some ErrRecordNotFound <->
     movies (fst (MovieModel.Delete env db id)) = movies db /\
     (id < 1 \/ fault env = None)) /\
  (ids_positive db ->
   fault env = None ->
   (MovieModel.Get env db id = Err ErrRecordNotFound <->
      movies db !! id = None) /\
   (snd (MovieModel.Delete env db id) = Some ErrRecordNotFound <->
      movies db !! id = None)).
Proof.
  destruct (Z.lt_ge_cases id 1) as [Hid|Hid].
  - rewrite Get_below_one, Delete_below_one by assumption. simpl.
    split_and!.
    + split; auto.
    + split; auto.
    + auto.
    + intros; lia.
    + intros; lia.
    + split; auto.
    + intros Hpos _.
      assert (Hm : movies db !! id = None).
      { destruct (movies db !! id) as [r|] eqn:Hm; [|reflexivity].
        assert (1 <= id) by (apply Hpos; rewrite Hm; eauto). lia. }
      split; split; auto.
  - destruct (fault env) as [msg|] eqn:Hf.
    + rewrite (Get_fault env db id msg), (Delete_fault env db id msg)
        by assumption.
      simpl. split_and!.
      * split; [discriminate|]. intros [H|[H _]]; [lia|discriminate].
      * split; [discriminate|]. intros [H|[H _]]; [lia|discriminate].
      * lia.
      * intros msg' _ E. injection E as <-. auto.
      * intros r _ E. discriminate.
      * split; [discriminate|]. intros [_ [H|H]]; [lia|discriminate].
      * intros _ E. discriminate.
    + destruct (movies db !! id) as [r|] eqn:Hm.
      * rewrite (Get_stored env db id r), (Delete_stored env db id r)
          by assumption.
        simpl. split_and!.
        -- split; [discriminate|]. intros [H|[_ H]]; [lia|discriminate].
        -- split; [discriminate|]. intros [H|[_ H]]; [lia|discriminate].
        -- lia.
        -- intros msg _ E. discriminate.
        -- intros r0 _ _ E. now injection E as <-.
        -- split; [discriminate|]. intros [E _]. exfalso.
           assert (delete id (movies db) !! id = movies db !! id) as E'
             by now rewrite E.
           rewrite lookup_delete_eq, Hm in E'. discriminate.
        -- intros _ _. split; split; discriminate.
      * rewrite Get_missing, Delete_missing by assumption.
        simpl. split_and!.
        -- split; auto.
        -- split; auto.
        -- lia.
        -- intros msg _ E. discriminate.
        -- intros r _ _ E. discriminate.
        -- split; auto.
        -- intros _ _. split; split; auto.
Qed.

Lemma Get_Delete_NotFound_witness :
  (MovieModel.Get quiet sample_db 2 = Err ErrRecordNotFound <->
     movies sample_db !! 2 = None) /\
  (snd (MovieModel.Delete quiet sample_db 2) = Some ErrRecordNotFound <->
     movies sample_db !! 2 = None) /\
  (MovieModel.Get down sample_db 0 = Err ErrRecordNotFound /\
   MovieModel.Delete down sample_db 0 = (sample_db, Some ErrRecordNotFound)) /\
  (MovieModel.Get down sample_db 2 = Err (ErrDriver "connection refused") /\
   MovieModel.Delete down sample_db 2 =
     (sample_db, Some (ErrDriver "connection refused"))) /\
  (MovieModel.Get quiet sample_db 1 = Ok (movie_of_row 1 casablanca) /\
   MovieModel.Delete quiet sample_db 1 =
     (set_movies (delete 1 (movies sample_db)) sample_db, None)).
Proof.
  assert (Hpos : ids_positive sample_db).
  { intros k [r Hk]. unfold sample_db in Hk. simpl in Hk.
    destruct (decide (k = 1)) as [->|Hne]; [lia|].
    rewrite lookup_singleton_ne in Hk by congruence. discriminate. }
  destruct (Get_Delete_NotFound quiet sample_db 2)
    as (_ & _ & _ & _ & _ & _ & Hexact).
  destruct (Hexact Hpos eq_refl) as [HG HD].
  destruct (Get_Delete_NotFound down sample_db 0) as (_ & _ & Hlow & _).
  destruct (Get_Delete_NotFound down sample_db 2)
    as (_ & _ & _ & Hfault & _).
  destruct (Get_Delete_NotFound quiet sample_db 1)
    as (_ & _ & _ & _ & Hstored & _).
  refine (conj HG (conj HD (conj _ (conj _ _)))).
  - apply Hlow. lia.
  - apply (Hfault "connection refused"); [lia|reflexivity].
  - apply (Hstored casablanca); [lia|reflexivity|reflexivity].
Defined.

(** ** Permissions *)

Lemma Include_In (p : Permissions) (code : string) :
  Include p code = true <-> In code p.
Proof.
  induction p as [|p_i rest IH]; simpl.
  - split; [discriminate|tauto].
  - destruct (String.eqb_spec code p_i) as [->|Hne].
    + split; auto.
    + rewrite IH. split; [auto|]. intros [E|H]; [congruence|assumption].
Qed.

Lemma scan_all_app rows (acc : Permissions) :
  PermissionModel.scan_all rows acc = acc ++ rows.
Proof.
  revert acc. induction rows as [|row rest IH]; intros acc; simpl.
  - now rewrite app_nil_r.
  - rewrite IH, <- app_assoc. reflexivity.
Qed.

Lemma select_codes_joined db userID db' rows :
  select_codes userID db = Ok (db', rows) ->
  db' = db /\ forall code, code ∈ rows <-> joined db userID code.
Proof.
  unfold select_codes. intros H. injection H as <- <-.
  split; [reflexivity|]. intros code. unfold joined.
  rewrite list_elem_of_bind. split.
  - intros (u & Hin & Hu). apply list_elem_of_filter in Hu as [Hu1 Hu2].
    apply list_elem_of_bind in Hin as (up & Hin & Hup).
    apply list_elem_of_filter in Hup as [Hup1 Hup2].
    apply list_elem_of_bind in Hin as (p & Hin & Hp).
    apply list_elem_of_filter in Hp as [Hp1 Hp2].
    apply list_elem_of_singleton in Hin.
    exists u, up, p. repeat split; auto; congruence.
  - intros (u & up & p & Hu & Hu' & Hup & Hup' & Hp & Hp' & Hc).
    exists u. split; [|apply list_elem_of_filter; auto].
    apply list_elem_of_bind. exists up.
    split; [|apply list_elem_of_filter; split; [congruence|auto]].
    apply list_elem_of_bind. exists p.
    split; [|apply list_elem_of_filter; auto].
    apply list_elem_of_singleton. auto.
Qed.

Lemma GetAllForUser_answered env db userID :
  elapsed env < 3 * Second ->
  fault env = None ->
  exists rows,
    select_codes userID db = Ok (db, rows) /\
    PermissionModel.GetAllForUser env db userID = Ok rows.
Proof.
  intros Ht Hf. eexists. split; [reflexivity|].
  unfold PermissionModel.GetAllForUser, QueryContext.
  rewrite round_trip_answered; auto.
  - simpl. now rewrite scan_all_app.
  - intros timeout E. vm_compute in E. injection E as <-. exact Ht.
Qed.



Example GetAllForUser_sample :
  PermissionModel.GetAllForUser quiet sample_db 7 = Ok ["movies:read"] /\
  PermissionModel.GetAllForUser quiet sample_db 8 = Ok [] /\
  Include ["movies:read"] "movies:read" = true /\
  Include ["movies:read"] "movies:write" = false.
Proof. repeat split. Qed.

(** ** [AddForUser] *)

Lemma any_eq_elem_of code codes : any_eq code codes = true <-> code ∈ codes.
Proof.
  unfold any_eq. rewrite existsb_exists, list_elem_of_In. split.
  - intros (c & Hin & E). apply String.eqb_eq in E. now subst.
  - intros Hin. exists code. split; [assumption|apply String.eqb_refl].
Qed.

Lemma AddForUser_answered env db userID codes :
  elapsed env < 3 * Second ->
  fault env = None ->
  PermissionModel.AddForUser env db userID codes =
    (set_users_permissions
       (users_permissions db ++
        map (fun p => {| user_id := userID; permission_id := permissions_id p |})
            (filter (fun p => any_eq (permissions_code p) codes = true)
                    (permissions db))) db,
     None).
Proof.
  intros Ht Hf.
  unfold PermissionModel.AddForUser, ExecContext, QueryContext.
  rewrite round_trip_answered; auto.
  intros timeout E. vm_compute in E. injection E as <-. exact Ht.
Qed.

(** C9: when the server executes the statement within the three seconds,
    [AddForUser] returns no error whatever the codes are.  The rows added
    to [users_permissions] are those of the permissions whose code is among
    the given ones; a code with no row in [permissions] adds nothing and is
    not reported; and when none of the given codes has a row, the database
    is left as it was although the call returned no error. *)
Theorem AddForUser_skips_unknown_codes env db userID codes :
  elapsed env < 3 * Second ->
  fault env = None ->
  exists db',
    PermissionModel.AddForUser env db userID codes = (db', None) /\
    (forall row,
       row ∈ users_permissions db' <->
       row ∈ users_permissions db \/
       (user_id row = userID /\
        exists p, p ∈ permissions db /\
                  permissions_id p = permission_id row /\
                  permissions_code p ∈ codes)) /\
    movies db' = movies db /\
    users db' = users db /\
    permissions db' = permissions db /\
    ((forall p, p ∈ permissions db -> permissions_code p ∉ codes) ->
     users_permissions db' = users_permissions db).
Proof.
  intros Ht Hf. eexists. split; [now apply AddForUser_answered|].
  simpl. split_and!; try reflexivity.
  - intros row. rewrite elem_of_app. apply or_iff_compat_l.
    rewrite list_elem_of_In, in_map_iff. split.
    + intros (p & <- & Hin). apply list_elem_of_In in Hin.
      apply list_elem_of_filter in Hin as [Hc Hin].
      split; [reflexivity|]. exists p. simpl.
      split; [assumption|]. split; [reflexivity|]. now apply any_eq_elem_of.
    + intros (Hu & p & Hin & Hid & Hc). exists p. split.
      * destruct row as [u i]. simpl in *. congruence.
      * apply list_elem_of_In, list_elem_of_filter.
        split; [now apply any_eq_elem_of|assumption].
  - intros Hnone.
    replace (filter (fun p => any_eq (permissions_code p) codes = true)
                    (permissions db)) with (@nil permissions_row).
    + simpl. apply app_nil_r.
    + symmetry.
      destruct (filter (fun p => any_eq (permissions_code p) codes = true)
                       (permissions db)) as [|p rest] eqn:E; [reflexivity|].
      assert (Hp : p ∈ p :: rest) by apply list_elem_of_here.
      rewrite <- E in Hp. apply list_elem_of_filter in Hp as [Hc Hin].
      apply any_eq_elem_of in Hc. now destruct (Hnone p Hin).
Qed.

Lemma AddForUser_skips_unknown_codes_witness :
  exists db',
    PermissionModel.AddForUser quiet sample_db 8
      ["movies:delete"; "movies:fly"] = (db', None) /\
    (forall row,
       row ∈ users_permissions db' <->
       row ∈ users_permissions sample_db \/
       (user_id row = 8 /\
        exists p, p ∈ permissions sample_db /\
                  permissions_id p = permission_id row /\
                  permissions_code p ∈ ["movies:delete"; "movies:fly"])) /\
    movies db' = movies sample_db /\
    users db' = users sample_db /\
    permissions db' = permissions sample_db /\
    ((forall p, p ∈ permissions sample_db ->
                permissions_code p ∉ ["movies:delete"; "movies:fly"]) ->
     users_permissions db' = users_permissions sample_db).
Proof.
  apply (AddForUser_skips_unknown_codes quiet sample_db 8
           ["movies:delete"; "movies:fly"]);
    [vm_compute; reflexivity | reflexivity].
Defined.

Example AddForUser_sample :
  PermissionModel.AddForUser quiet sample_db 8
    ["movies:delete"; "movies:fly"] = (sample_db, None) /\
  PermissionModel.AddForUser quiet sample_db 8 [] = (sample_db, None) /\
  PermissionModel.AddForUser quiet sample_db 8
    ["movies:write"; "movies:fly"] =
    (set_users_permissions
       [ {| user_id := 7; permission_id := 1 |};
         {| user_id := 8; permission_id := 2 |} ] sample_db,
     None).
Proof. repeat split. Qed.

(** ** [ValidateMovie] *)

Lemma int32_in_range x :
  -2147483648 <= x <= 2147483647 -> int32 x = x.
Proof.
  intros H. unfold int32.
  rewrite Z.mod_small by lia. lia.
Qed.

Section ValidateMovie_correct.

Variable Validator : Type.
Variable Check : Validator -> bool -> string -> string -> Validator.
Variable Unique : list string -> bool.

(** [Valid v]: no error is recorded in [v]. *)
Variable Valid : Validator -> bool.

Hypothesis Check_Valid :
  forall v ok key message, Valid (Check v ok key message) = Valid v && ok.

Hypothesis Unique_NoDup :
  forall values, Unique values = true <-> NoDup values.

Lemma ValidateMovie_checks year_now v m :
  Valid (ValidateMovie Validator Check Unique year_now v m) =
  Valid v
  && negb (String.eqb (Title m) "")
  && (Z.of_nat (String.length (Title m)) <=? 500)
  && negb (Year m =? 0)
  && (Year m >=? 1888)
  && (Year m <=? int32 year_now)
  && negb (Runtime m =? 0)
  && (Runtime m >? 0)
  && negb (is_nil (Genres m))
  && (len (Genres m) >=? 1)
  && (len (Genres m) <=? 5)
  && Unique (elems (Genres m)).
Proof. unfold ValidateMovie. now rewrite !Check_Valid. Qed.

(** C10: [ValidateMovie] records no error, on a validator that held none,
    if and only if the title is not empty and at most 500 bytes long, the
    year lies between 1888 and the current year, the runtime is positive,
    and the genres are a non-nil list of 1 to 5 entries without duplicates.
    [Check] is any function that keeps a validator free of errors exactly
    when the check passes, [Unique] any test of distinctness, and the
    current year any year that fits an [int32]. *)
Theorem ValidateMovie_no_errors_iff year_now v m :
  -2147483648 <= year_now <= 2147483647 ->
  Valid (ValidateMovie Validator Check Unique year_now v m) = true <->
  Valid v = true /\ movie_ok year_now m.
Proof.
  intros Hy. rewrite ValidateMovie_checks, (int32_in_range year_now Hy).
  unfold movie_ok.
  rewrite !andb_true_iff, !negb_true_iff, Unique_NoDup.
  rewrite String.eqb_neq, !Z.eqb_neq, !Z.leb_le, Z.geb_le, Z.gtb_lt.
  destruct (Genres m) as [l|]; simpl.
  - rewrite Z.geb_le. split.
    + intros H. destruct H as [[[[[[[[[[[? ?] ?] ?] ?] ?] ?] ?] ?] ?] ?] ?].
      repeat split; auto; try lia. exists l. repeat split; auto; lia.
    + intros (Hv & Ht & Hl & [Hy1 Hy2] & Hr & l' & E & [Hl1 Hl2] & Hd).
      injection E as <-. repeat split; auto; lia.
  - split.
    + intros H. destruct H as [[[[? ?] ?] ?] ?]. discriminate.
    + intros (_ & _ & _ & _ & _ & l & E & _). discriminate.
Qed.

End ValidateMovie_correct.

Lemma validator_Check_Valid v ok key message :
  validator.Valid (validator.Check v ok key message) = validator.Valid v && ok.
Proof.
  unfold validator.Check, validator.AddError, validator.Valid,
    validator.Validator in *.
  destruct ok; [now rewrite andb_true_r|]. rewrite andb_false_r.
  destruct (v !! key) as [old|] eqn:E.
  - apply bool_decide_eq_false. intros ->. rewrite lookup_empty in E.
    discriminate.
  - apply bool_decide_eq_false. apply insert_non_empty.
Qed.

Lemma validator_Unique_NoDup values :
  validator.Unique values = true <-> NoDup values.
Proof.
  induction values as [|x rest IH]; simpl.
  - split; [constructor|reflexivity].
  - rewrite andb_true_iff, negb_true_iff, NoDup_cons, IH.
    apply and_iff_compat_r.
    rewrite <- any_eq_elem_of. unfold any_eq.
    destruct (existsb (String.eqb x) rest); split; congruence.
Qed.

Lemma ValidateMovie_no_errors_iff_witness :
  validator.Valid
    (ValidateMovie validator.Validator validator.Check validator.Unique
                   2026 validator.New the_third_man) = true <->
  validator.Valid validator.New = true /\ movie_ok 2026 the_third_man.
Proof.
  apply (ValidateMovie_no_errors_iff validator.Validator validator.Check
           validator.Unique validator.Valid
           validator_Check_Valid validator_Unique_NoDup 2026
           validator.New the_third_man).
  lia.
Defined.

Example ValidateMovie_sample :
  ValidateMovie validator.Validator validator.Check validator.Unique
                2026 validator.New the_third_man = ∅ /\
  ValidateMovie validator.Validator validator.Check validator.Unique
                2026 validator.New (movie_of_row 1 casablanca) = ∅ /\
  map_to_list
    (ValidateMovie validator.Validator validator.Check validator.Unique
                   1940 validator.New (movie_of_row 1 casablanca)) =
    [("year", "must not be in the future")].
Proof. repeat split. Qed.

(** ** Start-up *)

Lemma Parse_exited args f status :
  api.exited f = Some status -> api.Parse args f = f.
Proof. intros H. destruct args as [|a rest]; simpl; now rewrite ?H. Qed.

Lemma Parse_cons a rest f :
  api.exited f = None ->
  api.Parse (a :: rest) f = api.Parse rest (api.parse_one a f).
Proof. intros H. simpl. now rewrite H. Qed.

Lemma Parse_app args more f :
  api.Parse (args ++ more) f = api.Parse more (api.Parse args f).
Proof.
  revert f. induction args as [|a args IH]; intros f; [reflexivity|].
  destruct (api.exited f) as [status|] eqn:E.
  - rewrite (Parse_exited (a :: args) f status E).
    rewrite (Parse_exited ((a :: args) ++ more) f status E).
    now rewrite (Parse_exited more f status E).
  - simpl. rewrite E. apply IH.
Qed.

Lemma Parse_not_exited args f :
  api.exited (api.Parse args f) = None -> api.exited f = None.
Proof.
  intros H. destruct (api.exited f) as [status|] eqn:E; [|reflexivity].
  rewrite (Parse_exited args f status E), E in H. discriminate.
Qed.

Lemma openDB_db w c c' :
  api.db c' = api.db c -> api.openDB w c' = api.openDB w c.
Proof. intros E. unfold api.openDB. now rewrite E. Qed.

Lemma main_served w args c :
  api.served (api.main w args) = Some c ->
  api.dotenv_fails w = false /\
  api.exited (api.Parse args (api.defaults w)) = None /\
  api.displayVersion (api.Parse args (api.defaults w)) = false /\
  api.openDB w (api.cfg (api.Parse args (api.defaults w))) = None /\
  c = api.cfg (api.Parse args (api.defaults w)).
Proof.
  unfold api.main.
  destruct (api.dotenv_fails w); [discriminate|].
  destruct (api.exited _); [discriminate|].
  destruct (api.displayVersion _); [discriminate|].
  destruct (api.openDB w _); [discriminate|].
  destruct (api.Serve w _); simpl; intros E; injection E as <-; auto.
Qed.

(** C5, as the code has it: the limiter settings are read from the command
    line (defaults 2, 4 and true) and are not validated.  Whenever [main]
    reaches [app.Serve()] with some arguments, it reaches it as well with
    any requests-per-second, burst and enabled values given after them,
    and the application is served with exactly those values and with the
    rest of the configuration unchanged. *)
Theorem main_serves_any_limiter_settings w args c x n b :
  api.served (api.main w args) = Some c ->
  api.limiter (api.cfg (api.defaults w)) =
    {| api.rps := 2%float; api.burst := 4; api.enabled := true |} /\
  exists c',
    api.served
      (api.main w (args ++ [api.arg_limiter_rps x; api.arg_limiter_burst n;
                            api.arg_limiter_enabled b])) = Some c' /\
    api.limiter c' = {| api.rps := x; api.burst := n; api.enabled := b |} /\
    api.port c' = api.port c /\
    api.env c' = api.env c /\
    api.db c' = api.db c /\
    api.smtp c' = api.smtp c /\
    api.cors c' = api.cors c.
Proof.
  intros H. destruct (main_served w args c H) as (Hd & He & Hv & Ho & ->).
  split; [reflexivity|].
  unfold api.main. rewrite Hd, Parse_app.
  set (f := api.Parse args (api.defaults w)) in *.
  rewrite !Parse_cons by (simpl; exact He). simpl.
  rewrite He, Hv.
  rewrite (openDB_db w (api.cfg f)) by reflexivity. rewrite Ho.
  eexists. split.
  - destruct (api.Serve w _); reflexivity.
  - repeat split.
Qed.

Lemma main_serves_any_limiter_settings_witness :
  api.limiter (api.cfg (api.defaults ready)) =
    {| api.rps := 2%float; api.burst := 4; api.enabled := true |} /\
  exists c',
    api.served
      (api.main ready ([api.arg_port 8080] ++
                       [api.arg_limiter_rps 0%float; api.arg_limiter_burst (-3);
                        api.arg_limiter_enabled true])) = Some c' /\
    api.limiter c' =
      {| api.rps := 0%float; api.burst := -3; api.enabled := true |} /\
    api.port c' = api.port (api.cfg (api.Parse [api.arg_port 8080]
                                               (api.defaults ready))) /\
    api.env c' = api.env (api.cfg (api.Parse [api.arg_port 8080]
                                             (api.defaults ready))) /\
    api.db c' = api.db (api.cfg (api.Parse [api.arg_port 8080]
                                           (api.defaults ready))) /\
    api.smtp c' = api.smtp (api.cfg (api.Parse [api.arg_port 8080]
                                               (api.defaults ready))) /\
    api.cors c' = api.cors (api.cfg (api.Parse [api.arg_port 8080]
                                               (api.defaults ready))).
Proof.
  apply (main_serves_any_limiter_settings ready [api.arg_port 8080]).
  reflexivity.
Defined.

(** C5 fails on the code: started with [-limiter-rps=-1 -limiter-burst=0],
    [main] rejects nothing and serves with these values. *)
Lemma main_serves_invalid_limiter :
  exists c,
    api.main ready [api.arg_limiter_rps (-1)%float; api.arg_limiter_burst 0] =
      {| api.served := Some c; api.exit_status := 0 |} /\
    PrimFloat.leb (api.rps (api.limiter c)) 0%float = true /\
    api.burst (api.limiter c) < 1 /\
    api.enabled (api.limiter c) = true.
Proof.
  eexists. split; [reflexivity|]. simpl. repeat split.
Qed.

(** ** [getMovieHandler] *)

(** C8: when [readIDParam] returns no error and an id of at least 1, the
    handler answers through [writeJSON] with status 201 and an envelope
    whose only entry, "movie", is written as the fixed movie Casablanca
    (runtime 102, version 1, genres drama, romance and war, no year) with
    the id of the request; neither the application and its stored data nor
    the clock change what is written.  It makes no other call unless
    [writeJSON] itself fails.  When [readIDParam] returns an error or an id
    below 1, the handler answers with the not-found response. *)
Theorem getMovieHandler_fixed_movie app now id err written :
  (err = None ->
   1 <= id ->
   exists data,
     api.getMovieHandler app now (id, err) written =
       api.writeJSON 201 data None ::
       match written with
       | Some e => [api.serverErrorResponse e]
       | None => []
       end /\
     api.marshal <$> data = {[ "movie" := casablanca_json id ]} /\
     forall app' now',
       exists data',
         api.getMovieHandler app' now' (id, err) None =
           [api.writeJSON 201 data' None] /\
         api.marshal <$> data' = api.marshal <$> data) /\
  (err <> None \/ id < 1 ->
   api.getMovieHandler app now (id, err) written = [api.notFoundResponse]).
Proof.
  split.
  - intros -> Hid. unfold api.getMovieHandler. simpl.
    destruct (Z.ltb_spec id 1); [lia|].
    eexists. split; [reflexivity|]. split.
    + reflexivity.
    + intros app' now'. eexists. split; reflexivity.
  - intros [Herr|Hid]; unfold api.getMovieHandler.
    + destruct err; [reflexivity|congruence].
    + destruct (Z.ltb_spec id 1); [|lia]. now rewrite orb_true_r.
Qed.

Lemma getMovieHandler_fixed_movie_witness :
  (exists data,
     api.getMovieHandler sample_app 1700000000 (5, None) None =
       [api.writeJSON 201 data None] /\
     api.marshal <$> data = {[ "movie" := casablanca_json 5 ]}) /\
  api.getMovieHandler sample_app 1700000000 (0, None) None =
    [api.notFoundResponse] /\
  api.getMovieHandler sample_app 1700000000 (0, Some (ErrDriver "invalid id parameter"))
    None = [api.notFoundResponse].
Proof.
  split; [|split].
  - destruct (getMovieHandler_fixed_movie sample_app 1700000000 5 None None)
      as [Hok _].
    destruct (Hok eq_refl ltac:(lia)) as (data & Hcall & Hjson & _).
    exists data. split; [exact Hcall|exact Hjson].
  - apply (getMovieHandler_fixed_movie sample_app 1700000000 0 None None).
    right. lia.
  - apply (getMovieHandler_fixed_movie sample_app 1700000000 0
             (Some (ErrDriver "invalid id parameter")) None).
    left. discriminate.
Defined.

(** * Further properties of the data layer *)

(** ** The outcomes of the movie mutations *)

Lemma Update_error env db movie db' movie' err :
  MovieModel.Update env db movie = (db', movie', Some err) ->
  db' = db /\ movie' = movie.
Proof.
  unfold MovieModel.Update, QueryRow_Scan, QueryContext, update_movie.
  destruct (round_trip Background env); simpl.
  - intros E. now injection E as <- <- _.
  - destruct (movies db !! ID movie) as [r|]; simpl.
    + destruct (pg_integer_max <? version r + 1); simpl; intros E.
      * now injection E as <- <- _.
      * discriminate.
    + intros E. now injection E as <- <- _.
Qed.

Lemma Delete_error env db id db' err :
  MovieModel.Delete env db id = (db', Some err) -> db' = db.
Proof.
  unfold MovieModel.Delete, Exec, ExecContext, QueryContext, delete_movie.
  destruct (id <? 1); [intros E; now injection E as <- _|].
  destruct (round_trip Background env); simpl.
  - intros E. now injection E as <- _.
  - destruct (movies db !! id) as [r|]; simpl; intros E.
    + discriminate.
    + now injection E as <- _.
Qed.

Lemma Delete_success env db id db' :
  MovieModel.Delete env db id = (db', None) ->
  1 <= id /\ fault env = None /\ is_Some (movies db !! id) /\
  db' = set_movies (delete id (movies db)) db.
Proof.
  intros H. destruct (Z.lt_ge_cases id 1) as [Hid|Hid].
  - rewrite Delete_below_one in H by assumption. discriminate.
  - destruct (fault env) as [msg|] eqn:Hf.
    + rewrite (Delete_fault env db id msg) in H by assumption. discriminate.
    + destruct (movies db !! id) as [r|] eqn:Hm.
      * rewrite (Delete_stored env db id r) in H by assumption.
        injection H as <-. eauto.
      * rewrite Delete_missing in H by assumption. discriminate.
Qed.

Lemma Insert_fresh env gen db movie :
  fault env = None ->
  movies db !! gen_id gen = None ->
  MovieModel.Insert env gen db movie =
    (set_movies
       (<[gen_id gen := {| created_at := gen_created_at gen;
                           title := Title movie;
                           year := Year movie;
                           runtime := Runtime movie;
                           genres := Genres movie;
                           version := gen_version gen |}]> (movies db)) db,
     {| ID := gen_id gen;
        CreatedAt := gen_created_at gen;
        Title := Title movie;
        Year := Year movie;
        Runtime := Runtime movie;
        Genres := Genres movie;
        Version := gen_version gen |},
     None).
Proof.
  intros Hf Hm.
  unfold MovieModel.Insert, QueryRow_Scan, QueryContext, insert_movie.
  rewrite round_trip_Background, Hf. simpl. now rewrite Hm.
Qed.

Lemma Insert_success env gen db movie db' movie' :
  MovieModel.Insert env gen db movie = (db', movie', None) ->
  fault env = None /\ movies db !! gen_id gen = None.
Proof.
  unfold MovieModel.Insert, QueryRow_Scan, QueryContext, insert_movie.
  rewrite round_trip_Background.
  destruct (fault env); simpl; [discriminate|].
  destruct (movies db !! gen_id gen) as [r|]; simpl; [discriminate|].
  auto.
Qed.

(** ** Round trips through the table *)

(** X2: what [Insert] stored is what [Get] reads.  After an [Insert] that
    returned no error, the caller's struct carries the id, creation time
    and version the server gave; the id was not in use before; and [Get]
    with that id, once it is at least 1 and the server answers, returns
    exactly the struct [Insert] left to the caller.  No other record is
    touched. *)
Theorem Insert_then_Get env env' gen db movie db' movie' :
  MovieModel.Insert env gen db movie = (db', movie', None) ->
  fault env' = None ->
  1 <= gen_id gen ->
  MovieModel.Get env' db' (ID movie') = Ok movie' /\
  ID movie' = gen_id gen /\
  CreatedAt movie' = gen_created_at gen /\
  Version movie' = gen_version gen /\
  movies db !! ID movie' = None /\
  forall id, id <> ID movie' -> movies db' !! id = movies db !! id.
Proof.
  intros H Hf Hid.
  destruct (Insert_success env gen db movie db' movie' H) as [Hf0 Hm].
  rewrite (Insert_fresh env gen db movie Hf0 Hm) in H.
  injection H as <- <-. simpl.
  split_and!; try reflexivity; try assumption.
  - erewrite Get_stored; cycle 1;
      [assumption | assumption | simpl; apply lookup_insert_eq | reflexivity].
  - intros id Hne. now apply lookup_insert_ne.
Qed.

Lemma Insert_then_Get_witness :
  let gen := {| gen_id := 2; gen_created_at := 1700000000; gen_version := 1 |} in
  let db' := fst (fst (MovieModel.Insert quiet gen sample_db lost_edit)) in
  let movie' := snd (fst (MovieModel.Insert quiet gen sample_db lost_edit)) in
  MovieModel.Get quiet db' (ID movie') = Ok movie' /\
  ID movie' = 2 /\
  CreatedAt movie' = 1700000000 /\
  Version movie' = 1 /\
  movies sample_db !! ID movie' = None /\
  forall id, id <> ID movie' -> movies db' !! id = movies sample_db !! id.
Proof.
  intros gen db' movie'.
  apply (Insert_then_Get quiet quiet gen sample_db lost_edit db' movie');
    [reflexivity | reflexivity | vm_compute; discriminate].
Defined.

(** X3: what [Update] wrote is what [Get] reads.  After an [Update] that
    returned no error, [Get] with the movie's id (at least 1, server
    answering) returns the caller's title, year, runtime and genres and the
    version [Update] put into the caller's struct; the creation time it
    returns is the stored one, which [Update] neither changes nor reads
    back into the struct. *)
Theorem Update_then_Get env env' db movie db' movie' :
  MovieModel.Update env db movie = (db', movie', None) ->
  fault env' = None ->
  1 <= ID movie ->
  exists r,
    movies db !! ID movie = Some r /\
    CreatedAt movie' = CreatedAt movie /\
    MovieModel.Get env' db' (ID movie) =
      Ok {| ID := ID movie';
            CreatedAt := created_at r;
            Title := Title movie';
            Year := Year movie';
            Runtime := Runtime movie';
            Genres := Genres movie';
            Version := Version movie' |}.
Proof.
  intros H Hf Hid.
  destruct (Update_success env db movie db' movie' H) as (r & _ & Hm & _ & E).
  rewrite E in H. injection H as <- <-.
  exists r. split; [exact Hm|]. split; [reflexivity|].
  erewrite Get_stored; cycle 1;
    [assumption | assumption | simpl; apply lookup_insert_eq | reflexivity].
Qed.

Lemma Update_then_Get_witness :
  exists r,
    movies sample_db !! ID stale_edit = Some r /\
    CreatedAt (set_Version 4 stale_edit) = CreatedAt stale_edit /\
    MovieModel.Get quiet
      (fst (fst (MovieModel.Update quiet sample_db stale_edit)))
      (ID stale_edit) =
      Ok {| ID := 1;
            CreatedAt := created_at r;
            Title := "Casablanca (colourised)";
            Year := 1942;
            Runtime := 102;
            Genres := Some ["drama"];
            Version := 4 |}.
Proof.
  apply (Update_then_Get quiet quiet sample_db stale_edit
           (fst (fst (MovieModel.Update quiet sample_db stale_edit)))
           (set_Version 4 stale_edit));
    [reflexivity | reflexivity | vm_compute; discriminate].
Defined.

(** X4: a deleted movie is gone.  After a [Delete] that returned no error,
    the id was at least 1 and was stored before; [Get] and a second
    [Delete] with the same id return [ErrRecordNotFound] (server
    answering); and every other record is still stored as it was. *)
Theorem Delete_then_Get env env' db id db' :
  MovieModel.Delete env db id = (db', None) ->
  fault env' = None ->
  1 <= id /\
  is_Some (movies db !! id) /\
  MovieModel.Get env' db' id = Err ErrRecordNotFound /\
  MovieModel.Delete env' db' id = (db', Some ErrRecordNotFound) /\
  forall id', id' <> id -> movies db' !! id' = movies db !! id'.
Proof.
  intros H Hf.
  destruct (Delete_success env db id db' H) as (Hid & _ & Hm & ->).
  assert (Hgone : movies (set_movies (delete id (movies db)) db) !! id = None)
    by (simpl; apply lookup_delete_eq).
  split_and!; try assumption.
  - now apply Get_missing.
  - now apply Delete_missing.
  - intros id' Hne. simpl. now apply lookup_delete_ne.
Qed.

Lemma Delete_then_Get_witness :
  let db' := fst (MovieModel.Delete quiet sample_db 1) in
  1 <= 1 /\
  is_Some (movies sample_db !! 1) /\
  MovieModel.Get quiet db' 1 = Err ErrRecordNotFound /\
  MovieModel.Delete quiet db' 1 = (db', Some ErrRecordNotFound) /\
  forall id', id' <> 1 -> movies db' !! id' = movies sample_db !! id'.
Proof.
  intros db'.
  apply (Delete_then_Get quiet quiet sample_db 1 db');
    [reflexivity | reflexivity].
Defined.

(** ** The keys of the table *)

Lemma Update_dom env db movie :
  dom (movies (fst (fst (MovieModel.Update env db movie)))) = dom (movies db).
Proof.
  destruct (MovieModel.Update env db movie) as [[db' movie'] [err|]] eqn:E.
  - now destruct (Update_error _ _ _ _ _ _ E) as [-> _].
  - destruct (Update_success _ _ _ _ _ E) as (r & _ & Hm & _ & E').
    rewrite E' in E. injection E as <- _. simpl.
    rewrite dom_insert_L.
    assert (Hin : ID movie ∈ dom (movies db)) by (apply elem_of_dom; eauto).
    apply set_eq. intros k. rewrite elem_of_union, elem_of_singleton.
    split; [intros [->|Hk]; assumption | auto].
Qed.

Lemma Delete_dom env db id :
  dom (movies (fst (MovieModel.Delete env db id))) =
  match snd (MovieModel.Delete env db id) with
  | None => dom (movies db) ∖ {[ id ]}
  | Some _ => dom (movies db)
  end.
Proof.
  destruct (MovieModel.Delete env db id) as [db' [err|]] eqn:E; simpl.
  - now rewrite (Delete_error _ _ _ _ _ E).
  - destruct (Delete_success _ _ _ _ E) as (_ & _ & _ & ->). simpl.
    apply dom_delete_L.
Qed.

(** X5: [Update] and [Delete] never create a record, and [Delete] removes
    no record but the one asked for.  Whatever the outcome, the ids stored
    after [Update] are the ids stored before; after [Delete] they are the
    ids before without the one deleted when it returned no error, all of
    them otherwise.  So a table whose ids are all at least 1 stays one. *)
Theorem Update_Delete_keep_the_keys env db :
  (forall movie,
     dom (movies (fst (fst (MovieModel.Update env db movie)))) =
     dom (movies db)) /\
  (forall id,
     dom (movies (fst (MovieModel.Delete env db id))) =
     match snd (MovieModel.Delete env db id) with
     | None => dom (movies db) ∖ {[ id ]}
     | Some _ => dom (movies db)
     end) /\
  (forall movie,
     ids_positive db ->
     ids_positive (fst (fst (MovieModel.Update env db movie)))) /\
  (forall id,
     ids_positive db -> ids_positive (fst (MovieModel.Delete env db id))).
Proof.
  split_and!.
  - intros movie. apply Update_dom.
  - intros id. apply Delete_dom.
  - intros movie Hpos k Hk. apply Hpos.
    apply elem_of_dom. rewrite <- (Update_dom env db movie).
    now apply elem_of_dom.
  - intros id Hpos k Hk. apply Hpos.
    apply elem_of_dom in Hk. rewrite Delete_dom in Hk. apply elem_of_dom.
    destruct (snd (MovieModel.Delete env db id)); [assumption|].
    now apply elem_of_difference in Hk as [Hk _].
Qed.

Lemma sample_db_ids_positive : ids_positive sample_db.
Proof.
  intros k [r Hk]. unfold sample_db in Hk. simpl in Hk.
  destruct (decide (k = 1)) as [->|Hne]; [lia|].
  rewrite lookup_singleton_ne in Hk by congruence. discriminate.
Qed.

Lemma Update_Delete_keep_the_keys_witness :
  ids_positive (fst (fst (MovieModel.Update quiet sample_db stale_edit))) /\
  ids_positive (fst (MovieModel.Delete quiet sample_db 1)).
Proof.
  destruct (Update_Delete_keep_the_keys quiet sample_db)
    as (_ & _ & HU & HD).
  split.
  - apply (HU stale_edit), sample_db_ids_positive.
  - apply (HD 1), sample_db_ids_positive.
Defined.

(** ** Versions along a sequence of updates *)

Lemma edits_of_cons id movie done :
  edits_of id (movie :: done) =
  (if decide (ID movie = id) then 1 else 0) + edits_of id done.
Proof.
  unfold edits_of. destruct (decide (ID movie = id)) as [E|E].
  - rewrite filter_cons_True by assumption. simpl length. lia.
  - rewrite filter_cons_False by assumption. lia.
Qed.

(** X6: the version of a movie counts the updates made to it.  Along any
    sequence of [Update] calls, on any movies and under any behaviour of the
    server, a stored movie stays stored, keeps its creation time, and ends
    with its first version plus the number of calls on its id that
    returned no error. *)
Theorem version_counts_the_updates calls :
  forall db id r db' done,
    movies db !! id = Some r ->
    Update_each db calls = (db', done) ->
    exists r',
      movies db' !! id = Some r' /\
      version r' = version r + edits_of id done /\
      created_at r' = created_at r.
Proof.
  induction calls as [|[env movie] rest IH]; intros db id r db' done Hm H.
  - injection H as <- <-. exists r. split; [assumption|].
    unfold edits_of. simpl. split; [lia|reflexivity].
  - simpl in H.
    destruct (MovieModel.Update env db movie) as [[db1 movie1] [err|]] eqn:E.
    + destruct (Update_error _ _ _ _ _ _ E) as [-> _].
      now apply (IH db id r db' done).
    + destruct (Update_success _ _ _ _ _ E) as (r0 & _ & Hm0 & _ & E').
      rewrite E' in E. injection E as <- _.
      destruct (Update_each _ rest) as [db'' done'] eqn:E2.
      injection H as <- <-. rewrite edits_of_cons.
      destruct (decide (ID movie = id)) as [Heq|Hne].
      * subst id. rewrite Hm in Hm0. injection Hm0 as <-.
        eapply (IH _ (ID movie)) in E2 as (r' & Hr' & Hv & Hc);
          [|simpl; apply lookup_insert_eq].
        exists r'. split; [assumption|]. simpl in Hv, Hc.
        split; [lia|assumption].
      * eapply (IH _ id r) in E2 as (r' & Hr' & Hv & Hc);
          [|simpl; rewrite lookup_insert_ne by assumption; exact Hm].
        exists r'. split; [assumption|]. split; [lia|assumption].
Qed.

Lemma version_counts_the_updates_witness :
  exists r',
    movies (fst (Update_each sample_db
                   [(quiet, stale_edit); (down, stale_edit);
                    (quiet, lost_edit); (slow, stale_edit)])) !! 1 = Some r' /\
    version r' =
      version casablanca +
      edits_of 1 (snd (Update_each sample_db
                         [(quiet, stale_edit); (down, stale_edit);
                          (quiet, lost_edit); (slow, stale_edit)])) /\
    created_at r' = created_at casablanca.
Proof.
  apply (version_counts_the_updates
           [(quiet, stale_edit); (down, stale_edit);
            (quiet, lost_edit); (slow, stale_edit)]
           sample_db 1 casablanca);
    reflexivity.
Defined.

Example Update_each_sample :
  snd (Update_each sample_db
         [(quiet, stale_edit); (down, stale_edit);
          (quiet, lost_edit); (slow, stale_edit)]) = [stale_edit; stale_edit] /\
  version <$>
    movies (fst (Update_each sample_db
                   [(quiet, stale_edit); (down, stale_edit);
                    (quiet, lost_edit); (slow, stale_edit)])) !! 1 = Some 5.
Proof. split; reflexivity. Qed.

(** X7: [Update] has no guard on the id.  With an id below 1, on a table
    whose ids are all at least 1, [Get] and [Delete] return
    [ErrRecordNotFound] without asking the server, while [Update] asks it:
    it returns [sql.ErrNoRows] when the server answers and the error of the
    driver when it does not, never [ErrRecordNotFound]. *)
Theorem Update_has_no_id_guard env db movie :
  ID movie < 1 ->
  ids_positive db ->
  MovieModel.Get env db (ID movie) = Err ErrRecordNotFound /\
  MovieModel.Delete env db (ID movie) = (db, Some ErrRecordNotFound) /\
  MovieModel.Update env db movie =
    (db, movie,
     Some match fault env with
          | Some msg => ErrDriver msg
          | None => ErrNoRows
          end) /\
  snd (MovieModel.Update env db movie) <> Some ErrRecordNotFound.
Proof.
  intros Hid Hpos.
  assert (Hm : movies db !! ID movie = None).
  { destruct (movies db !! ID movie) as [r|] eqn:Hm; [|reflexivity].
    assert (1 <= ID movie) by (apply Hpos; rewrite Hm; eauto). lia. }
  assert (HU : MovieModel.Update env db movie =
               (db, movie,
                Some match fault env with
                     | Some msg => ErrDriver msg
                     | None => ErrNoRows
                     end)).
  { destruct (fault env) as [msg|] eqn:Hf.
    - unfold MovieModel.Update, QueryRow_Scan, QueryContext.
      now rewrite round_trip_Background, Hf.
    - now apply Update_missing. }
  split_and!.
  - now apply Get_below_one.
  - now apply Delete_below_one.
  - exact HU.
  - rewrite HU. simpl. destruct (fault env); discriminate.
Qed.

Lemma Update_has_no_id_guard_witness :
  MovieModel.Get down sample_db (ID the_third_man) = Err ErrRecordNotFound /\
  MovieModel.Delete down sample_db (ID the_third_man) =
    (sample_db, Some ErrRecordNotFound) /\
  MovieModel.Update down sample_db the_third_man =
    (sample_db, the_third_man,
     Some match fault down with
          | Some msg => ErrDriver msg
          | None => ErrNoRows
          end) /\
  snd (MovieModel.Update down sample_db the_third_man) <>
    Some ErrRecordNotFound.
Proof.
  apply (Update_has_no_id_guard down sample_db the_third_man);
    [vm_compute; reflexivity | exact sample_db_ids_positive].
Defined.

(** ** Granting and reading permissions *)

(** X9: [Include] on two lists put together is [Include] on the one or on
    the other: appending permissions never hides a code, and a code is
    found in the whole only if it is in a part. *)
Theorem Include_app (p q : Permissions) code :
  Include (p ++ q) code = Include p code || Include q code.
Proof.
  induction p as [|p_i rest IH]; simpl; [reflexivity|].
  destruct (String.eqb code p_i); [reflexivity|exact IH].
Qed.

Lemma AddForUser_success env db userID codes db' :
  PermissionModel.AddForUser env db userID codes = (db', None) ->
  db' =
    set_users_permissions
      (users_permissions db ++
       map (fun p => {| user_id := userID; permission_id := permissions_id p |})
           (filter (fun p => any_eq (permissions_code p) codes = true)
                   (permissions db))) db.
Proof.
  unfold PermissionModel.AddForUser, ExecContext, QueryContext,
    insert_users_permissions.
  destruct (round_trip _ env); simpl; intros E.
  - discriminate.
  - now injection E as <-.
Qed.

Lemma bind_filter_ext {A B : Type} (P : A -> Prop)
    `{forall x, Decision (P x)} (f g : A -> list B) (l : list A) :
  (forall x, P x -> f x = g x) ->
  filter P l ≫= f = filter P l ≫= g.
Proof.
  intros Hfg. induction l as [|x l IH]; [reflexivity|].
  rewrite filter_cons. destruct (decide (P x)) as [Hx|Hx]; [|exact IH].
  rewrite !bind_cons, IH, (Hfg x Hx). reflexivity.
Qed.

Lemma filter_granted_other userID other (ps : list permissions_row) :
  other <> userID ->
  filter (fun up => user_id up = other)
    (map (fun p => {| user_id := userID; permission_id := permissions_id p |})
         ps) = [].
Proof.
  intros Hne. induction ps as [|p ps IH]; [reflexivity|].
  simpl. rewrite filter_cons_False; [exact IH|]. simpl. congruence.
Qed.

Lemma joined_after_grant db userID codes code :
  permissions_keyed db ->
  joined
    (set_users_permissions
       (users_permissions db ++
        map (fun p => {| user_id := userID; permission_id := permissions_id p |})
            (filter (fun p => any_eq (permissions_code p) codes = true)
                    (permissions db))) db) userID code <->
  joined db userID code \/
  ((exists u, u ∈ users db /\ users_id u = userID) /\
   code ∈ codes /\
   exists p, p ∈ permissions db /\ permissions_code p = code).
Proof.
  intros Hkey. unfold joined. simpl. split.
  - intros (u & up & p & Hu & Hu' & Hup & Hup' & Hp & Hp' & Hc).
    apply elem_of_app in Hup as [Hup|Hup].
    + left. exists u, up, p. auto 10.
    + right. apply list_elem_of_In, in_map_iff in Hup as (q & <- & Hq).
      apply list_elem_of_In, list_elem_of_filter in Hq as [Hq1 Hq2].
      apply any_eq_elem_of in Hq1. simpl in Hp'.
      assert (p = q) as -> by now apply Hkey.
      subst code. eauto 10.
  - intros [(u & up & p & Hu & Hu' & Hup & Hup' & Hp & Hp' & Hc)
           |((u & Hu & Hu') & Hin & p & Hp & Hc)].
    + exists u, up, p. rewrite elem_of_app. auto 10.
    + exists u, {| user_id := userID; permission_id := permissions_id p |}, p.
      split_and!; try assumption; try reflexivity.
      apply elem_of_app. right.
      apply list_elem_of_In, in_map_iff. exists p. split; [reflexivity|].
      apply list_elem_of_In, list_elem_of_filter. split; [|assumption].
      apply any_eq_elem_of. now rewrite Hc.
Qed.

Lemma GetAllForUser_other_user env db userID codes other :
  other <> userID ->
  PermissionModel.GetAllForUser env
    (set_users_permissions
       (users_permissions db ++
        map (fun p => {| user_id := userID; permission_id := permissions_id p |})
            (filter (fun p => any_eq (permissions_code p) codes = true)
                    (permissions db))) db) other =
  PermissionModel.GetAllForUser env db other.
Proof.
  intros Hne. unfold PermissionModel.GetAllForUser, QueryContext.
  destruct (round_trip _ env); [reflexivity|].
  unfold select_codes. simpl. f_equal. f_equal.
  apply bind_filter_ext. intros u Hu.
  rewrite filter_app, filter_granted_other by congruence.
  now rewrite app_nil_r.
Qed.

(** X8: a permission granted is a permission read.  After an [AddForUser]
    that returned no error, on a table of permissions keyed by id,
    [GetAllForUser] for that user (server answering in time) includes a
    code exactly when it included it before, or the code was among the
    given ones, has a row in [permissions], and the user has a row in
    [users].  For every other user [GetAllForUser] returns what it returned
    before. *)
Theorem AddForUser_then_GetAllForUser env env' db userID codes db' :
  PermissionModel.AddForUser env db userID codes = (db', None) ->
  permissions_keyed db ->
  elapsed env' < 3 * Second ->
  fault env' = None ->
  exists before after : Permissions,
    PermissionModel.GetAllForUser env' db userID = Ok before /\
    PermissionModel.GetAllForUser env' db' userID = Ok after /\
    (forall code,
       Include after code = true <->
       Include before code = true \/
       ((exists u, u ∈ users db /\ users_id u = userID) /\
        code ∈ codes /\
        exists p, p ∈ permissions db /\ permissions_code p = code)) /\
    forall other,
      other <> userID ->
      PermissionModel.GetAllForUser env' db' other =
      PermissionModel.GetAllForUser env' db other.
Proof.
  intros H Hkey Ht Hf. apply AddForUser_success in H.
  destruct (GetAllForUser_answered env' db userID Ht Hf)
    as (before & Hsb & Hgb).
  destruct (GetAllForUser_answered env' db' userID Ht Hf)
    as (after & Hsa & Hga).
  exists before, after. split; [exact Hgb|]. split; [exact Hga|]. split.
  - intros code. rewrite !Include_In, <- !list_elem_of_In.
    apply select_codes_joined in Hsb as [_ Hb].
    apply select_codes_joined in Hsa as [_ Ha].
    rewrite Ha, Hb. subst db'. now apply joined_after_grant.
  - intros other Hne. subst db'. now apply GetAllForUser_other_user.
Qed.

Lemma sample_db_permissions_keyed : permissions_keyed sample_db.
Proof.
  intros p q Hp Hq. unfold sample_db in Hp, Hq. simpl in Hp, Hq.
  apply elem_of_cons in Hp as [->|Hp]; apply elem_of_cons in Hq as [->|Hq];
    try apply list_elem_of_singleton in Hp as ->;
    try apply list_elem_of_singleton in Hq as ->;
    simpl; intros E; try reflexivity; discriminate.
Qed.

Lemma AddForUser_then_GetAllForUser_witness :
  exists before after : Permissions,
    PermissionModel.GetAllForUser quiet sample_db 8 = Ok before /\
    PermissionModel.GetAllForUser quiet
      (fst (PermissionModel.AddForUser quiet sample_db 8
              ["movies:write"; "movies:fly"])) 8 = Ok after /\
    (forall code,
       Include after code = true <->
       Include before code = true \/
       ((exists u, u ∈ users sample_db /\ users_id u = 8) /\
        code ∈ ["movies:write"; "movies:fly"] /\
        exists p, p ∈ permissions sample_db /\ permissions_code p = code)) /\
    forall other,
      other <> 8 ->
      PermissionModel.GetAllForUser quiet
        (fst (PermissionModel.AddForUser quiet sample_db 8
                ["movies:write"; "movies:fly"])) other =
      PermissionModel.GetAllForUser quiet sample_db other.
Proof.
  apply (AddForUser_then_GetAllForUser quiet quiet sample_db 8
           ["movies:write"; "movies:fly"]);
    [reflexivity | exact sample_db_permissions_keyed
    | vm_compute; reflexivity | reflexivity].
Defined.

Example AddForUser_then_GetAllForUser_sample :
  PermissionModel.GetAllForUser quiet
    (fst (PermissionModel.AddForUser quiet sample_db 8
            ["movies:write"; "movies:fly"])) 8 = Ok ["movies:write"] /\
  PermissionModel.GetAllForUser quiet
    (fst (PermissionModel.AddForUser quiet sample_db 8
            ["movies:write"; "movies:fly"])) 7 = Ok ["movies:read"].
Proof. split; reflexivity. Qed.

(** X10: a user without permissions gets the empty list, not an error.
    When the server answers in time and no row of [users_permissions]
    carries the user id, or no row of [users] does, [GetAllForUser] returns
    no error and a list that includes no code. *)
Theorem GetAllForUser_without_permissions env db userID :
  elapsed env < 3 * Second ->
  fault env = None ->
  (forall up, up ∈ users_permissions db -> user_id up <> userID) \/
  (forall u, u ∈ users db -> users_id u <> userID) ->
  PermissionModel.GetAllForUser env db userID = Ok [] /\
  forall code, Include [] code = false.
Proof.
  intros Ht Hf Hnone. split; [|reflexivity].
  destruct (GetAllForUser_answered env db userID Ht Hf) as (rows & Hs & Hg).
  rewrite Hg. f_equal.
  apply select_codes_joined in Hs as [_ Hrows].
  destruct rows as [|code rest]; [reflexivity|]. exfalso.
  assert (Hj : joined db userID code) by (apply Hrows; left).
  destruct Hj as (u & up & p & Hu & Hu' & Hup & Hup' & _).
  destruct Hnone as [Hnone|Hnone].
  - now apply (Hnone up).
  - now apply (Hnone u).
Qed.

Lemma GetAllForUser_without_permissions_witness :
  PermissionModel.GetAllForUser quiet sample_db 8 = Ok [] /\
  forall code, Include [] code = false.
Proof.
  apply (GetAllForUser_without_permissions quiet sample_db 8);
    [vm_compute; reflexivity | reflexivity |].
  left. intros up Hup. unfold sample_db in Hup. simpl in Hup.
  apply list_elem_of_singleton in Hup as ->. simpl. discriminate.
Defined.

(** * Further properties of [cmd/api] *)

(** X12: the checks of [openDB] come in the order of its text, and only
    the database settings count.  An error of [sql.Open] is returned
    first; then an idle time that does not parse is an error whatever the
    server would answer to a ping; [openDB] returns no error only when
    both went through; and two configurations with the same DSN and the
    same idle time open, or fail to open, alike. *)
Theorem openDB_checks_in_order w c :
  (forall err,
     api.sql_Open w (api.dsn (api.db c)) = Some err ->
     api.openDB w c = Some err) /\
  (forall err,
     api.sql_Open w (api.dsn (api.db c)) = None ->
     api.ParseDuration w (api.maxIdleTime (api.db c)) = Err err ->
     api.openDB w c = Some err) /\
  (api.openDB w c = None ->
     api.sql_Open w (api.dsn (api.db c)) = None /\
     exists d, api.ParseDuration w (api.maxIdleTime (api.db c)) = Ok d) /\
  (forall c',
     api.dsn (api.db c') = api.dsn (api.db c) ->
     api.maxIdleTime (api.db c') = api.maxIdleTime (api.db c) ->
     api.openDB w c' = api.openDB w c).
Proof.
  unfold api.openDB. split_and!.
  - intros err ->. reflexivity.
  - intros err -> ->. reflexivity.
  - destruct (api.sql_Open w _) as [e|]; [discriminate|].
    destruct (api.ParseDuration w _) as [d|e]; [|discriminate].
    intros _. eauto.
  - intros c' -> ->. reflexivity.
Qed.

Lemma openDB_checks_in_order_witness :
  let unparsable :=
    {| api.dotenv_fails := false;
       api.Getenv := fun _ => EmptyString;
       api.sql_Open := fun _ => None;
       api.ParseDuration := fun _ => Err (ErrDriver "time: invalid duration");
       api.ping := quiet;
       api.Serve := fun _ => None |} in
  api.openDB unparsable (api.cfg (api.defaults ready)) =
    Some (ErrDriver "time: invalid duration") /\
  (api.sql_Open ready (api.dsn (api.db (api.cfg (api.defaults ready)))) = None /\
   exists d,
     api.ParseDuration ready
       (api.maxIdleTime (api.db (api.cfg (api.defaults ready)))) = Ok d) /\
  api.openDB ready
    (api.cfg (api.Parse [api.arg_port 8080; api.arg_limiter_burst 0]
                        (api.defaults ready))) =
  api.openDB ready (api.cfg (api.defaults ready)).
Proof.
  intros unparsable.
  refine (conj _ (conj _ _)).
  - apply (openDB_checks_in_order unparsable (api.cfg (api.defaults ready)));
      reflexivity.
  - apply (openDB_checks_in_order ready (api.cfg (api.defaults ready))).
    reflexivity.
  - apply (openDB_checks_in_order ready (api.cfg (api.defaults ready)));
      reflexivity.
Defined.

Lemma Parse_accepted args :
  forall f,
    api.exited f = None ->
    forallb accepted args = true ->
    api.exited (api.Parse args f) = None.
Proof.
  induction args as [|a args IH]; intros f He H; [exact He|].
  simpl in H. apply andb_true_iff in H as [Ha Hargs].
  rewrite Parse_cons by assumption. apply IH; [|assumption].
  destruct a; simpl in Ha; try discriminate; exact He.
Qed.

(** X13: the command line is dealt with before the database.  With the
    [.env] file in place, the first flag that [flag.Parse] does not go on
    after decides how [main] ends, whatever comes after it and whatever
    state the database is in: [-h] gives exit status 0 and a refused flag
    exit status 2.  When every flag is accepted and [-version] is set,
    [main] exits with status 0.  In none of these cases is the database
    opened or the application served. *)
Theorem main_deals_with_the_command_line_first w before rest :
  api.dotenv_fails w = false ->
  forallb accepted before = true ->
  api.main w (before ++ api.arg_help :: rest) =
    {| api.served := None; api.exit_status := 0 |} /\
  api.main w (before ++ api.arg_refused :: rest) =
    {| api.served := None; api.exit_status := 2 |} /\
  (api.displayVersion (api.Parse before (api.defaults w)) = true ->
   api.main w before = {| api.served := None; api.exit_status := 0 |}).
Proof.
  intros Hd Hacc.
  assert (He : api.exited (api.Parse before (api.defaults w)) = None)
    by now apply Parse_accepted.
  unfold api.main. rewrite Hd, !Parse_app.
  rewrite !Parse_cons by exact He.
  rewrite (Parse_exited rest (api.parse_one api.arg_help _) 0 eq_refl).
  rewrite (Parse_exited rest (api.parse_one api.arg_refused _) 2 eq_refl).
  simpl.
  split; [reflexivity|]. split; [reflexivity|].
  intros Hv. now rewrite He, Hv.
Qed.

Lemma main_deals_with_the_command_line_first_witness :
  let unreachable :=
    {| api.dotenv_fails := false;
       api.Getenv := fun _ => EmptyString;
       api.sql_Open := fun _ => Some (ErrDriver "connection refused");
       api.ParseDuration := fun _ => Ok (900 * Second);
       api.ping := down;
       api.Serve := fun _ => None |} in
  api.main unreachable
    ([api.arg_port 8080; api.arg_version true] ++
     api.arg_help :: [api.arg_env "staging"]) =
    {| api.served := None; api.exit_status := 0 |} /\
  api.main unreachable
    ([api.arg_port 8080; api.arg_version true] ++
     api.arg_refused :: [api.arg_env "staging"]) =
    {| api.served := None; api.exit_status := 2 |} /\
  (api.displayVersion
     (api.Parse [api.arg_port 8080; api.arg_version true]
                (api.defaults unreachable)) = true ->
   api.main unreachable [api.arg_port 8080; api.arg_version true] =
     {| api.served := None; api.exit_status := 0 |}).
Proof.
  intros unreachable.
  apply (main_deals_with_the_command_line_first unreachable
           [api.arg_port 8080; api.arg_version true]
           [api.arg_env "staging"]);
    reflexivity.
Defined.

(** ** The flags *)


Lemma Parse_env args :
  forall f,
    api.exited (api.Parse args f) = None ->
    api.env (api.cfg (api.Parse args f)) = last_env args (api.env (api.cfg f)).
Proof.
  induction args as [|a args IH]; intros f H; [reflexivity|].
  assert (He : api.exited f = None) by now apply Parse_not_exited in H.
  rewrite Parse_cons in H |- * by assumption.
  rewrite IH by assumption.
  destruct a; try reflexivity;
    rewrite (Parse_exited args _ _ eq_refl) in H; discriminate.
Qed.



(** X15: the health check reports the environment the server was started
    in.  For an application served by [main], it answers through
    [writeJSON] with status 201 and an envelope of two entries: "status" is
    "available", and "system_info" holds the version and, as environment,
    the value of the last [-env] flag, "development" when there was none.
    It makes no other call unless [writeJSON] itself fails. *)
Theorem healthcheck_reports_the_environment w args c db version written :
  api.served (api.main w args) = Some c ->
  api.healthcheckHandler {| api.config := c; api.models := db |}
                         version written =
    api.health_writeJSON 201
      (<[ "status" := api.any_string "available" ]>
         (<[ "system_info" :=
               api.any_map
                 (<[ "version" := version ]>
                    (<[ "environment" := last_env args "development" ]> ∅)) ]>
            ∅))
      None ::
    match written with
    | Some err => [api.health_serverErrorResponse err]
    | None => []
    end.
Proof.
  intros H. apply main_served in H as (_ & He & _ & _ & ->).
  unfold api.healthcheckHandler. simpl. now rewrite Parse_env.
Qed.

Lemma healthcheck_reports_the_environment_witness :
  api.healthcheckHandler
    {| api.config :=
         api.cfg (api.Parse [api.arg_env "staging"; api.arg_env "production"]
                            (api.defaults ready));
       api.models := sample_db |}
    "1.0.0" None =
    [api.health_writeJSON 201
       (<[ "status" := api.any_string "available" ]>
          (<[ "system_info" :=
                api.any_map
                  (<[ "version" := "1.0.0" ]>
                     (<[ "environment" := "production" ]> ∅)) ]>
             ∅))
       None].
Proof.
  apply (healthcheck_reports_the_environment ready
           [api.arg_env "staging"; api.arg_env "production"]).
  reflexivity.
Defined.

(** * Further properties: how the movie operations compose *)

Lemma Update_spec env db movie :
  MovieModel.Update env db movie =
  match fault env with
  | Some msg => (db, movie, Some (ErrDriver msg))
  | None =>
      match movies db !! ID movie with
      | None => (db, movie, Some ErrNoRows)
      | Some r =>
          if pg_integer_max <? version r + 1
          then (db, movie, Some (ErrDriver "integer out of range"))
          else
            (set_movies
               (<[ID movie := {| created_at := created_at r;
                                 title := Title movie;
                                 year := Year movie;
                                 runtime := Runtime movie;
                                 genres := Genres movie;
                                 version := version r + 1 |}]> (movies db)) db,
             set_Version (version r + 1) movie,
             None)
      end
  end.
Proof.
  unfold MovieModel.Update, QueryRow_Scan, QueryContext, update_movie.
  rewrite round_trip_Background.
  destruct (fault env); simpl; [reflexivity|].
  destruct (movies db !! ID movie) as [r|]; simpl; [|reflexivity].
  now destruct (pg_integer_max <? version r + 1).
Qed.

(** X16: [Delete] undoes [Insert].  After an [Insert] that returned no
    error under an id of at least 1, a [Delete] of that id (server
    answering) returns no error and leaves the database exactly as it was
    before the [Insert]. *)
Theorem Delete_undoes_Insert env env' gen db movie db' movie' :
  MovieModel.Insert env gen db movie = (db', movie', None) ->
  fault env' = None ->
  1 <= gen_id gen ->
  MovieModel.Delete env' db' (ID movie') = (db, None).
Proof.
  intros H Hf Hid.
  destruct (Insert_success env gen db movie db' movie' H) as [Hf0 Hm].
  rewrite (Insert_fresh env gen db movie Hf0 Hm) in H.
  injection H as <- <-. simpl.
  erewrite Delete_stored; cycle 1;
    [assumption | assumption | simpl; apply lookup_insert_eq |].
  simpl. rewrite delete_insert_id by assumption.
  now destruct db.
Qed.

Lemma Delete_undoes_Insert_witness :
  MovieModel.Delete quiet
    (fst (fst (MovieModel.Insert quiet
                 {| gen_id := 2; gen_created_at := 9; gen_version := 1 |}
                 sample_db lost_edit)))
    (ID (snd (fst (MovieModel.Insert quiet
                     {| gen_id := 2; gen_created_at := 9; gen_version := 1 |}
                     sample_db lost_edit)))) = (sample_db, None).
Proof.
  apply (Delete_undoes_Insert quiet quiet
           {| gen_id := 2; gen_created_at := 9; gen_version := 1 |}
           sample_db lost_edit);
    [reflexivity | reflexivity | vm_compute; discriminate].
Defined.

Lemma Update_other_lookup env db movie id :
  id <> ID movie ->
  movies (fst (fst (MovieModel.Update env db movie))) !! id = movies db !! id.
Proof.
  intros Hne. rewrite Update_spec.
  destruct (fault env); [reflexivity|].
  destruct (movies db !! ID movie) as [r|]; [|reflexivity].
  destruct (pg_integer_max <? version r + 1); [reflexivity|].
  simpl. now apply lookup_insert_ne.
Qed.

(** The outcome of [Update] follows the row of its movie alone: on a
    database that stores the same row under the id, the call returns the
    same struct and error and writes the same row. *)
Lemma Update_transfer env db db' movie :
  movies db' !! ID movie = movies db !! ID movie ->
  MovieModel.Update env db' movie =
  (match snd (MovieModel.Update env db movie) with
   | Some _ => db'
   | None =>
       match movies (fst (fst (MovieModel.Update env db movie))) !! ID movie with
       | Some r' => set_movies (<[ID movie := r']> (movies db')) db'
       | None => db'
       end
   end,
   snd (fst (MovieModel.Update env db movie)),
   snd (MovieModel.Update env db movie)).
Proof.
  intros E. rewrite !Update_spec, E.
  destruct (fault env); [reflexivity|].
  destruct (movies db !! ID movie) as [r|]; [|reflexivity].
  destruct (pg_integer_max <? version r + 1); [reflexivity|].
  simpl. now rewrite lookup_insert_eq.
Qed.

(** X17: updates of different movies do not interfere.  Two [Update] calls
    on movies with different ids give the same database, the same structs
    and the same errors in either order, under any behaviour of the
    server. *)
Theorem updates_of_different_movies_commute env1 env2 db a b :
  ID a <> ID b ->
  fst (fst (MovieModel.Update env2
              (fst (fst (MovieModel.Update env1 db a))) b)) =
  fst (fst (MovieModel.Update env1
              (fst (fst (MovieModel.Update env2 db b))) a)) /\
  (snd (fst (MovieModel.Update env1
               (fst (fst (MovieModel.Update env2 db b))) a)),
   snd (MovieModel.Update env1
          (fst (fst (MovieModel.Update env2 db b))) a)) =
  (snd (fst (MovieModel.Update env1 db a)),
   snd (MovieModel.Update env1 db a)) /\
  (snd (fst (MovieModel.Update env2
               (fst (fst (MovieModel.Update env1 db a))) b)),
   snd (MovieModel.Update env2
          (fst (fst (MovieModel.Update env1 db a))) b)) =
  (snd (fst (MovieModel.Update env2 db b)),
   snd (MovieModel.Update env2 db b)).
Proof.
  intros Hne.
  assert (Hne' : ID b <> ID a) by congruence.
  rewrite (Update_transfer env2 db (fst (fst (MovieModel.Update env1 db a))) b)
    by (now apply Update_other_lookup).
  rewrite (Update_transfer env1 db (fst (fst (MovieModel.Update env2 db b))) a)
    by (now apply Update_other_lookup).
  simpl. split; [|split; reflexivity].
  destruct (MovieModel.Update env1 db a) as [[da a1] [ea|]] eqn:Ea;
    destruct (MovieModel.Update env2 db b) as [[dbb b1] [eb|]] eqn:Eb; simpl.
  - destruct (Update_error _ _ _ _ _ _ Ea) as [-> _].
    now destruct (Update_error _ _ _ _ _ _ Eb) as [-> _].
  - destruct (Update_error _ _ _ _ _ _ Ea) as [-> _].
    destruct (Update_success _ _ _ _ _ Eb) as (rb & _ & Hb & _ & Eb').
    rewrite Eb' in Eb. injection Eb as <- _. simpl.
    rewrite lookup_insert_eq. reflexivity.
  - destruct (Update_error _ _ _ _ _ _ Eb) as [-> _].
    destruct (Update_success _ _ _ _ _ Ea) as (ra & _ & Ha & _ & Ea').
    rewrite Ea' in Ea. injection Ea as <- _. simpl.
    rewrite lookup_insert_eq. reflexivity.
  - destruct (Update_success _ _ _ _ _ Ea) as (ra & _ & Ha & _ & Ea').
    destruct (Update_success _ _ _ _ _ Eb) as (rb & _ & Hb & _ & Eb').
    rewrite Ea' in Ea. injection Ea as <- _.
    rewrite Eb' in Eb. injection Eb as <- _. simpl.
    rewrite !lookup_insert_eq. unfold set_movies. simpl. f_equal.
    now apply insert_insert_ne.
Qed.

Lemma updates_of_different_movies_commute_witness :
  let second :=
    {| ID := 2; CreatedAt := 0; Title := "The Third Man (restored)";
       Year := 1949; Runtime := 108; Genres := Some ["noir"];
       Version := 1 |} in
  let db :=
    fst (fst (MovieModel.Insert quiet
                {| gen_id := 2; gen_created_at := 9; gen_version := 1 |}
                sample_db lost_edit)) in
  fst (fst (MovieModel.Update quiet
              (fst (fst (MovieModel.Update down db stale_edit))) second)) =
  fst (fst (MovieModel.Update down
              (fst (fst (MovieModel.Update quiet db second))) stale_edit)) /\
  (snd (fst (MovieModel.Update down
               (fst (fst (MovieModel.Update quiet db second))) stale_edit)),
   snd (MovieModel.Update down
          (fst (fst (MovieModel.Update quiet db second))) stale_edit)) =
  (snd (fst (MovieModel.Update down db stale_edit)),
   snd (MovieModel.Update down db stale_edit)) /\
  (snd (fst (MovieModel.Update quiet
               (fst (fst (MovieModel.Update down db stale_edit))) second)),
   snd (MovieModel.Update quiet
          (fst (fst (MovieModel.Update down db stale_edit))) second)) =
  (snd (fst (MovieModel.Update quiet db second)),
   snd (MovieModel.Update quiet db second)).
Proof.
  intros second db.
  apply (updates_of_different_movies_commute down quiet db stale_edit second).
  vm_compute. discriminate.
Defined.

(** ** Validation and the table *)

Section Validation_of_stored_movies.

Variable Validator : Type.
Variable Check : Validator -> bool -> string -> string -> Validator.
Variable Unique : list string -> bool.

(** X18: a movie read back validates as it did when it was sent.  After an
    [Insert] or an [Update] that returned no error, [Get] with the movie's
    id (at least 1, server answering) returns a movie on which
    [ValidateMovie] records exactly what it records on the movie the caller
    sent, on any validator and in any year: the id, the creation time and
    the version, which the table sets, play no part in validation. *)
Theorem stored_movie_validates_as_sent year_now v env env' db movie db' movie' :
  fault env' = None ->
  (MovieModel.Update env db movie = (db', movie', None) ->
   1 <= ID movie ->
   exists stored,
     MovieModel.Get env' db' (ID movie) = Ok stored /\
     ValidateMovie Validator Check Unique year_now v stored =
     ValidateMovie Validator Check Unique year_now v movie) /\
  (forall gen,
     MovieModel.Insert env gen db movie = (db', movie', None) ->
     1 <= gen_id gen ->
     exists stored,
       MovieModel.Get env' db' (ID movie') = Ok stored /\
       ValidateMovie Validator Check Unique year_now v stored =
       ValidateMovie Validator Check Unique year_now v movie).
Proof.
  intros Hf. split.
  - intros H Hid.
    destruct (Update_success env db movie db' movie' H)
      as (r & _ & Hm & _ & E).
    rewrite E in H. injection H as <- <-.
    eexists. split.
    + erewrite Get_stored; cycle 1;
        [assumption | assumption | simpl; apply lookup_insert_eq
        | reflexivity].
    + reflexivity.
  - intros gen H Hid.
    destruct (Insert_success env gen db movie db' movie' H) as [Hf0 Hm].
    rewrite (Insert_fresh env gen db movie Hf0 Hm) in H.
    injection H as <- <-. simpl.
    eexists. split.
    + erewrite Get_stored; cycle 1;
        [assumption | assumption | simpl; apply lookup_insert_eq
        | reflexivity].
    + reflexivity.
Qed.

End Validation_of_stored_movies.

Lemma stored_movie_validates_as_sent_witness :
  exists stored,
    MovieModel.Get quiet
      (fst (fst (MovieModel.Update quiet sample_db stale_edit)))
      (ID stale_edit) = Ok stored /\
    ValidateMovie validator.Validator validator.Check validator.Unique
                  2026 validator.New stored =
    ValidateMovie validator.Validator validator.Check validator.Unique
                  2026 validator.New stale_edit.
Proof.
  destruct (stored_movie_validates_as_sent
              validator.Validator validator.Check validator.Unique
              2026 validator.New quiet quiet sample_db stale_edit
              (fst (fst (MovieModel.Update quiet sample_db stale_edit)))
              (set_Version 4 stale_edit) eq_refl) as [HU _].
  apply HU; [reflexivity | vm_compute; discriminate].
Defined.
